(** * Module_4-Analytics_Engineering/quick_ingest_fhv.py

    A shallow embedding of the FHV ingest script: the period generator
    [month_range], the fetcher [download_file], the converter
    [convert_csv_gz_to_parquet], the batch loop
    [download_and_convert_fhv_files] and the loader
    [load_parquets_into_duckdb], followed by the properties the
    specification states about them.

    Python integers are unbounded, hence [Z].  The file system is a finite
    map from path strings to file contents; the remote server, the DuckDB
    engine and the operating system are a record of oracles [Env].
    Exceptions are values of a small state-and-exception monad; the
    failures that the script itself catches ([try]/[except]) are all
    modelled, a failure it does not catch ends the run and is outside the
    statements below.  Calls to [print] only write to standard output and
    are left out of the stateful functions; the summary the [__main__]
    block prints is given as the list of its lines. *)

From Stdlib Require Import ZArith Lia List String Ascii.
From Stdlib Require OrderedTypeEx.
From Stdlib.Strings Require Byte.
From stdpp Require Import gmap strings list fin_maps pretty sorting.

Local Open Scope Z_scope.

(* ===================================================================== *)
(** ** Periods and [month_range] *)
(* ===================================================================== *)

(** A period is a [(year, month)] tuple of Python integers. *)
Definition Period : Type := (Z * Z)%type.

(** Lexicographic order on periods, the order of Python tuples. *)
Definition period_lt (p q : Period) : Prop :=
  p.1 < q.1 ∨ (p.1 = q.1 ∧ p.2 < q.2).

Definition period_le (p q : Period) : Prop :=
  p.1 < q.1 ∨ (p.1 = q.1 ∧ p.2 <= q.2).

(** A calendar period has its month in 1..12. *)
Definition calendar (p : Period) : Prop := 1 <= p.2 <= 12.

(** The loop test of [month_range]:
    [(y < end_year) or (y == end_year and m <= end_month)]. *)
Definition in_range (y m end_year end_month : Z) : bool :=
  (y <? end_year) || ((y =? end_year) && (m <=? end_month)).

(** The update after the [yield]: [m += 1; if m == 13: m = 1; y += 1]. *)
Definition advance (p : Period) : Period :=
  let m := p.2 + 1 in
  if m =? 13 then (p.1 + 1, 1) else (p.1, m).

(** The generator, run to exhaustion.  The [while] loop is unbounded in the
    source, so the embedding takes fuel: one unit per iteration, [None]
    when the loop is still running after [fuel] iterations. *)
Fixpoint month_range (fuel : nat)
    (start_year start_month end_year end_month : Z) : option (list Period) :=
  if in_range start_year start_month end_year end_month then
    match fuel with
    | O => None
    | S fuel' =>
        let p := (start_year, start_month) in
        let p' := advance p in
        cons p <$> month_range fuel' p'.1 p'.2 end_year end_month
    end
  else Some [].

(** Fuel that suffices for a calendar start month: the months left until
    the end of [end_year]. *)
Definition month_fuel (start_year start_month end_year : Z) : nat :=
  Z.to_nat (12 * (end_year - start_year) + 13 - start_month).

(** Consecutive elements of a list are related by [R]. *)
Inductive chained {A} (R : A → A → Prop) : list A → Prop :=
  | chained_nil : chained R []
  | chained_one x : chained R [x]
  | chained_cons x y l : R x y → chained R (y :: l) → chained R (x :: y :: l).


(* ===================================================================== *)
(** ** The world the script runs in *)
(* ===================================================================== *)

Abbreviation bytes := (list Byte.byte).

(** What the script asks of its collaborators, in call order. *)
Inductive Event :=
  | EvDownload (url dest : string)            (* download_file(url, dest) *)
  | EvOpenWrite (dest : string)               (* open(dest, "wb") *)
  | EvConvert (csv_gz_path parquet_path : string)
                                              (* convert_csv_gz_to_parquet *)
  | EvUnlink (p : string)                     (* Path.unlink *)
  | EvConnect (db_path : string).             (* duckdb.connect(db_path) *)

(** A relation held by DuckDB: named columns and rows aligned with them. *)
Inductive Value := VNull | VData (v : string).

Record Table := { columns : list string; rows : list (list Value) }.

(** The mutable state: files by path, the tables of each database file
    (keyed by database path and qualified table name), the schemas
    created so far, and the log of calls. *)
Record World := {
  files : gmap string bytes;
  tables : gmap (string * string) Table;
  schemas : gset (string * string);
  trace : list Event
}.

Definition set_files (f : gmap string bytes → gmap string bytes) (w : World) : World :=
  {| files := f (files w); tables := tables w; schemas := schemas w;
     trace := trace w |}.

Definition add_event (e : Event) (w : World) : World :=
  {| files := files w; tables := tables w; schemas := schemas w;
     trace := trace w ++ [e] |}.

(** An HTTP answer as [requests] delivers it with [stream=True]: a status,
    the chunks [iter_content] yields, and the error it raises after them
    when the transfer breaks off. *)
Record Response := {
  status_code : Z;
  body : list bytes;
  broken : option string
}.

(** The outcome of DuckDB's [COPY ... TO parquet_path]: the file written,
    or an error together with whatever was left at [parquet_path]. *)
Inductive CopyResult :=
  | CopyDone (out : bytes)
  | CopyError (msg : string) (partial : option bytes).

(** The collaborators the script treats as opaque services. *)
Record Env := {
  (** [requests.get(url, stream=True, timeout=60)]: an exception message
      or a response. *)
  http_get : string → string + Response;
  (** [open(dest, "wb")] failing. *)
  open_wb_error : string → option string;
  (** DuckDB's COPY of [read_csv_auto(csv_gz_path)] given the source
      file's content (if any), the source path and the target path. *)
  duckdb_copy : option bytes → string → string → CopyResult;
  (** [Path.unlink] failing on an existing file. *)
  unlink_error : string → option string;
  (** The relation a parquet file holds. *)
  parquet_table : bytes → Table
}.

(* ===================================================================== *)
(** ** State and exceptions *)
(* ===================================================================== *)

(** A call returns a value or raises; the exception is its message. *)
Inductive Res (A : Type) :=
  | Ok (a : A)
  | Raise (e : string).
Arguments Ok {A} a.
Arguments Raise {A} e.

Definition M (A : Type) : Type := World → Res A * World.

Definition ret {A} (a : A) : M A := λ w, (Ok a, w).

Definition raise {A} (e : string) : M A := λ w, (Raise e, w).

Definition bind {A B} (c : M A) (k : A → M B) : M B :=
  λ w, match c w with
       | (Ok a, w') => k a w'
       | (Raise e, w') => (Raise e, w')
       end.

(** [try: c except Exception as e: h e] *)
Definition try_except {A} (c : M A) (h : string → M A) : M A :=
  λ w, match c w with
       | (Ok a, w') => (Ok a, w')
       | (Raise e, w') => h e w'
       end.

(** [try: c finally: f]: [f] runs on both exits; an exception of [f]
    replaces the outcome of [c]. *)
Definition try_finally {A} (c : M A) (f : M unit) : M A :=
  λ w, match c w with
       | (r, w') =>
           match f w' with
           | (Ok _, w'') => (r, w'')
           | (Raise e, w'') => (Raise e, w'')
           end
       end.

Declare Scope prog_scope.
Delimit Scope prog_scope with prog.
Notation "x <- c ;; k" := (bind c (λ x, k))
  (at level 100, c at next level, right associativity) : prog_scope.
Notation "c ;; k" := (bind c (λ _, k))
  (at level 100, right associativity) : prog_scope.
Local Open Scope prog_scope.

(** [for a in l: s = body(s, a)] *)
Fixpoint for_each {A S} (body : S → A → M S) (l : list A) (s : S) : M S :=
  match l with
  | [] => ret s
  | a :: l' => s' <- body s a ;; for_each body l' s'
  end.

(* ===================================================================== *)
(** ** File-system primitives *)
(* ===================================================================== *)

Section primitives.
Variable env : Env.

Definition log (e : Event) : M unit := λ w, (Ok tt, add_event e w).

(** [p.exists()] *)
Definition path_exists (p : string) : M bool :=
  λ w, (Ok (bool_decide (is_Some (files w !! p))), w).

(** [p.stat().st_size] *)
Definition st_size (p : string) : M Z :=
  λ w, match files w !! p with
       | Some c => (Ok (Z.of_nat (length c)), w)
       | None => (Raise "FileNotFoundError", w)
       end.

(** [p.unlink()] *)
Definition unlink (p : string) : M unit :=
  log (EvUnlink p) ;;
  λ w, match files w !! p with
       | None => (Raise "FileNotFoundError", w)
       | Some _ =>
           match unlink_error env p with
           | Some e => (Raise e, w)
           | None => (Ok tt, set_files (delete p) w)
           end
       end.

(** [try: p.unlink() except Exception: pass] *)
Definition try_unlink (p : string) : M unit :=
  try_except (unlink p) (λ _, ret tt).

(** [open(dest, "wb")]: creates the file or truncates it. *)
Definition open_wb (dest : string) : M unit :=
  log (EvOpenWrite dest) ;;
  λ w, match open_wb_error env dest with
       | Some e => (Raise e, w)
       | None => (Ok tt, set_files <[dest := []]> w)
       end.

(** [f.write(chunk)] on the file opened at [dest]. *)
Definition f_write (dest : string) (chunk : bytes) : M unit :=
  λ w, (Ok tt, set_files (alter (λ c, c ++ chunk) dest) w).

End primitives.

(* ===================================================================== *)
(** ** [download_file] *)
(* ===================================================================== *)

Section fetcher.
Variable env : Env.

(** [requests.get(url, stream=True, timeout=60)] *)
Definition requests_get (url : string) : M Response :=
  λ w, match http_get env url with
       | inl e => (Raise e, w)
       | inr resp => (Ok resp, w)
       end.

(** [Response.raise_for_status] of the [requests] library: an
    [HTTPError] for the client-error and server-error classes. *)
Definition http_error_status (status : Z) : bool :=
  (400 <=? status) && (status <? 600).

Definition raise_for_status (url : string) (resp : Response) : M unit :=
  if http_error_status (status_code resp)
  then raise (pretty (status_code resp) +:+ " Error for url: " +:+ url)
  else ret tt.

(** [for chunk in ...: if chunk: f.write(chunk)] *)
Fixpoint write_chunks (dest : string) (chunks : list bytes) : M unit :=
  match chunks with
  | [] => ret tt
  | chunk :: rest =>
      (match chunk with [] => ret tt | _ => f_write dest chunk end) ;;
      write_chunks dest rest
  end.

(** [resp.iter_content(...)] consumed by the loop: the chunks, then the
    error of a transfer that broke off. *)
Definition stream_to (dest : string) (resp : Response) : M unit :=
  write_chunks dest (body resp) ;;
  match broken resp with
  | Some e => raise e
  | None => ret tt
  end.

Definition download_file (url dest : string) : M unit :=
  log (EvDownload url dest) ;;
  resp <- requests_get url ;;
  raise_for_status url resp ;;
  open_wb env dest ;;
  stream_to dest resp.

End fetcher.

(* ===================================================================== *)
(** ** [convert_csv_gz_to_parquet] *)
(* ===================================================================== *)

Section converter.
Variable env : Env.

(** [duckdb.connect(); con.execute(COPY ... TO parquet_path); con.close()] *)
Definition duckdb_execute_copy (csv_gz_path parquet_path : string) : M unit :=
  λ w, match duckdb_copy env (files w !! csv_gz_path) csv_gz_path parquet_path with
       | CopyDone out => (Ok tt, set_files <[parquet_path := out]> w)
       | CopyError e None => (Raise e, w)
       | CopyError e (Some part) =>
           (Raise e, set_files <[parquet_path := part]> w)
       end.

Definition convert_csv_gz_to_parquet (csv_gz_path parquet_path : string) : M unit :=
  log (EvConvert csv_gz_path parquet_path) ;;
  try_except (duckdb_execute_copy csv_gz_path parquet_path)
    (λ e,
      ex <- path_exists parquet_path ;;
      (if ex : bool then try_unlink env parquet_path else ret tt) ;;
      raise e).

End converter.

(* ===================================================================== *)
(** ** [download_and_convert_fhv_files] *)
(* ===================================================================== *)

Definition BASE_URL : string :=
  "https://github.com/DataTalksClub/nyc-tlc-data/releases/download".
Definition RELEASE : string := "fhv".

(** [Path("data") / "fhv"] *)
Definition data_dir : string := "data/fhv".

(** [dir / name] for a relative [name]. *)
Definition joinpath (dir name : string) : string := dir +:+ "/" +:+ name.

(** The format [{month:02d}]: zero padded to width two, sign included. *)
Definition fmt_02d (n : Z) : string :=
  if (0 <=? n) && (n <? 10) then "0" +:+ pretty n else pretty n.

Definition tripdata_stem (p : Period) : string :=
  "fhv_tripdata_" +:+ pretty p.1 +:+ "-" +:+ fmt_02d p.2.

Definition csv_gz_filename (p : Period) : string := tripdata_stem p +:+ ".csv.gz".
Definition csv_gz_filepath (p : Period) : string := joinpath data_dir (csv_gz_filename p).
Definition parquet_filename (p : Period) : string := tripdata_stem p +:+ ".parquet".
Definition parquet_filepath (p : Period) : string := joinpath data_dir (parquet_filename p).
Definition fhv_url (p : Period) : string :=
  BASE_URL +:+ "/" +:+ RELEASE +:+ "/" +:+ csv_gz_filename p.

(** The size above which a parquet file counts as converted. *)
Definition MIN_SIZE : Z := 1024.

(** The two result lists the loop appends to. *)
Record Batch := {
  successes : list string;
  failures : list (string * string)
}.

Definition add_success (b : Batch) (p : string) : Batch :=
  {| successes := successes b ++ [p]; failures := failures b |}.

Definition add_failure (b : Batch) (name msg : string) : Batch :=
  {| successes := successes b; failures := failures b ++ [(name, msg)] |}.

Section orchestrator.
Variable env : Env.

(** [p.exists() and p.stat().st_size > 1024] *)
Definition looks_converted (p : string) : M bool :=
  ex <- path_exists p ;;
  if ex : bool then (sz <- st_size p ;; ret (MIN_SIZE <? sz)) else ret false.

(** [p.exists() and p.stat().st_size <= 1024] *)
Definition looks_broken (p : string) : M bool :=
  ex <- path_exists p ;;
  if ex : bool then (sz <- st_size p ;; ret (sz <=? MIN_SIZE)) else ret false.

(** [if p.exists(): try: p.unlink() except Exception: pass] *)
Definition remove_if_exists (p : string) : M unit :=
  ex <- path_exists p ;;
  if ex : bool then try_unlink env p else ret tt.

(** The body after the skip test and the removal of a tiny parquet:
    download, then convert, each guarded as in the source. *)
Definition fetch_and_convert (b : Batch) (p : Period) : M Batch :=
  failed <- try_except
              (download_file env (fhv_url p) (csv_gz_filepath p) ;; ret None)
              (λ e, ret (Some ("download failed: " +:+ e))) ;;
  match failed with
  | Some msg =>
      let b' := add_failure b (csv_gz_filename p) msg in
      remove_if_exists (csv_gz_filepath p) ;;
      ret b'                                              (* continue *)
  | None =>
      try_finally
        (try_except
           (convert_csv_gz_to_parquet env (csv_gz_filepath p) (parquet_filepath p) ;;
            ret (add_success b (parquet_filepath p)))
           (λ e, ret (add_failure b (csv_gz_filename p) ("convert failed: " +:+ e))))
        (remove_if_exists (csv_gz_filepath p))
  end.

(** One iteration of the [for] loop. *)
Definition process_unit (b : Batch) (p : Period) : M Batch :=
  skip <- looks_converted (parquet_filepath p) ;;
  if skip : bool then ret (add_success b (parquet_filepath p))   (* continue *)
  else
    tiny <- looks_broken (parquet_filepath p) ;;
    (if tiny : bool then try_unlink env (parquet_filepath p) else ret tt) ;;
    fetch_and_convert b p.

(** The whole function.  [data_dir.mkdir(exist_ok=True, parents=True)]
    has no effect on a map keyed by full paths.  The generator keeps its
    [(y, m)] to itself, so the loop over it is the loop over the list it
    yields; [None] when the generator outlasts the fuel. *)
Definition download_and_convert_fhv_files (fuel : nat)
    (start_year start_month end_year end_month : Z) (w : World)
    : option (Res (list string * list (string * string)) * World) :=
  periods ← month_range fuel start_year start_month end_year end_month;
  Some ((b <- for_each process_unit periods
               {| successes := []; failures := [] |} ;;
         ret (successes b, failures b)) w).

End orchestrator.

(* ===================================================================== *)
(** ** [load_parquets_into_duckdb] *)
(* ===================================================================== *)

(** [fhv_dir = Path("data") / "fhv"] *)
Definition fhv_dir : string := "data/fhv".

(** [s.endswith(suffix)] *)
Definition endswith (s suffix : string) : bool :=
  (String.length suffix <=? String.length s)%nat &&
  String.eqb
    (substring (String.length s - String.length suffix) (String.length suffix) s)
    suffix.

(** The name of [p] below [dir] when [p] is a direct child of [dir]. *)
Definition child_name (dir p : string) : option string :=
  let d := dir +:+ "/" in
  if String.prefix d p then
    let name := substring (String.length d) (String.length p - String.length d) p in
    if forallb (λ c, negb (Ascii.eqb c "/")) (list_ascii_of_string name)
    then Some name else None
  else None.

(** Whether [dir.glob("*.parquet")] matches [p]. *)
Definition matches_parquet (dir p : string) : bool :=
  match child_name dir p with
  | Some name => endswith name ".parquet"
  | None => false
  end.

(** The order [sorted] puts paths of one directory in. *)
Definition path_le (p q : string) : Prop := String.leb p q = true.

Global Instance path_le_dec p q : Decision (path_le p q).
Proof. unfold path_le. apply _. Defined.

(** [sorted(fhv_dir.glob("*.parquet"))] *)
Definition parquet_files (dir : string) (w : World) : list string :=
  merge_sort path_le
    (filter (λ p, matches_parquet dir p) (map_to_list (files w)).*1).

Definition size_of (w : World) (p : string) : Z :=
  match files w !! p with
  | Some c => Z.of_nat (length c)
  | None => 0
  end.

(** [[p for p in parquet_files if p.stat().st_size > 1024]] *)
Definition good_files (w : World) : list string :=
  filter (λ p, MIN_SIZE < size_of w p) (parquet_files fhv_dir w).

(** *** DuckDB's [read_parquet([...], union_by_name=true)]

    The columns of the result are the columns of the files by name, in
    order of first appearance; a row keeps its values under their names
    and is NULL in the columns its file lacks. *)

Fixpoint first_occurrences (seen l : list string) : list string :=
  match l with
  | [] => []
  | c :: l' =>
      if bool_decide (c ∈ seen) then first_occurrences seen l'
      else c :: first_occurrences (c :: seen) l'
  end.

Definition union_columns (ts : list Table) : list string :=
  first_occurrences [] (mjoin (columns <$> ts)).

(** The value of [row] under the column named [c]. *)
Fixpoint cell (cols : list string) (row : list Value) (c : string) : Value :=
  match cols, row with
  | c' :: cols', v :: row' => if bool_decide (c' = c) then v else cell cols' row' c
  | _, _ => VNull
  end.

Definition widen (out : list string) (t : Table) (row : list Value) : list Value :=
  cell (columns t) row <$> out.

Definition union_by_name (ts : list Table) : Table :=
  {| columns := union_columns ts;
     rows := mjoin ((λ t, widen (union_columns ts) t <$> rows t) <$> ts) |}.

Definition NO_VALID_PARQUET : string :=
  "No valid parquet files found to load. Conversion likely failed for all months.".

Definition FHV_TABLE : string := "prod.fhv_tripdata".

Section loader.
Variable env : Env.

(** [duckdb.connect(db_path)] *)
Definition duckdb_connect (db_path : string) : M unit := log (EvConnect db_path).

(** [CREATE SCHEMA IF NOT EXISTS name] *)
Definition create_schema_if_not_exists (db_path name : string) : M unit :=
  λ w, (Ok tt,
        {| files := files w; tables := tables w;
           schemas := {[ (db_path, name) ]} ∪ schemas w; trace := trace w |}).

(** [CREATE OR REPLACE TABLE name AS
     SELECT * FROM read_parquet([paths], union_by_name=true)] *)
Definition create_or_replace_from_parquets
    (db_path name : string) (paths : list string) : M unit :=
  λ w, let ts := (λ p, parquet_table env (default [] (files w !! p))) <$> paths in
       (Ok tt,
        {| files := files w;
           tables := <[ (db_path, name) := union_by_name ts ]> (tables w);
           schemas := schemas w; trace := trace w |}).

Definition load_parquets_into_duckdb (db_path : string) : M unit :=
  good <- (λ w, (Ok (good_files w), w)) ;;
  match good with
  | [] => raise NO_VALID_PARQUET
  | _ =>
      duckdb_connect db_path ;;
      create_schema_if_not_exists db_path "prod" ;;
      create_or_replace_from_parquets db_path FHV_TABLE good
  end.

End loader.

(** The three states of an artifact path that the two tests of the loop
    ([looks_converted], [looks_broken]) tell apart. *)
Inductive ArtifactState := Absent | Broken | Valid.

Global Instance ArtifactState_eq_dec : EqDecision ArtifactState.
Proof. solve_decision. Defined.

Definition classify (w : World) (p : string) : ArtifactState :=
  match files w !! p with
  | None => Absent
  | Some c => if MIN_SIZE <? Z.of_nat (length c) then Valid else Broken
  end.

(** The calls to the Fetcher and to the Converter in a log. *)
Definition is_invocation (e : Event) : bool :=
  match e with
  | EvDownload _ _ | EvConvert _ _ => true
  | _ => false
  end.

Definition invocations (evs : list Event) : list Event :=
  List.filter is_invocation evs.

(** The files the loader takes: matched by the glob and above the size
    threshold. *)
Definition valid_parquet (w : World) (p : string) : Prop :=
  matches_parquet fhv_dir p = true ∧ classify w p = Valid.

(** How one unit ended: [None] for a success, the message of a failure. *)
Definition Outcome : Type := (Period * option string)%type.

Definition outcome_success (o : Outcome) : option string :=
  match o.2 with
  | None => Some (parquet_filepath o.1)
  | Some _ => None
  end.

Definition outcome_failure (o : Outcome) : option (string * string) :=
  (λ msg, (csv_gz_filename o.1, msg)) <$> o.2.

(** The result lists after units that ended as [os], in that order. *)
Definition record_outcomes (b : Batch) (os : list Outcome) : Batch :=
  {| successes := successes b ++ omap outcome_success os;
     failures := failures b ++ omap outcome_failure os |}.

Definition succeeded (os : list Outcome) : list Period :=
  (filter (λ o : Outcome, o.2 = None) os).*1.

Definition failed (os : list Outcome) : list Period :=
  (filter (λ o : Outcome, o.2 ≠ None) os).*1.

(* ===================================================================== *)
(** ** Sample worlds *)
(* ===================================================================== *)

(** [n] bytes of content. *)
Definition blob (n : nat) : bytes := replicate n Byte.x00.

Definition empty_world : World :=
  {| files := ∅; tables := ∅; schemas := ∅; trace := [] |}.

Definition world_with (fs : list (string * bytes)) : World :=
  {| files := list_to_map fs; tables := ∅; schemas := ∅; trace := [] |}.

Definition no_table : bytes → Table := λ _, {| columns := []; rows := [] |}.

(** Two parquet contents holding relations with columns {a,b} and {a,c}. *)
Definition table_ab : Table :=
  {| columns := ["a"; "b"]; rows := [[VData "1"; VData "2"]] |}.
Definition table_ac : Table :=
  {| columns := ["a"; "c"]; rows := [[VData "3"; VData "4"]] |}.
Definition sample_table (c : bytes) : Table :=
  match c with
  | Byte.x00 :: _ => table_ab
  | _ => table_ac
  end.

(** Every download is answered 404. *)
Definition env_404 : Env :=
  {| http_get := λ _, inr {| status_code := 404; body := []; broken := None |};
     open_wb_error := λ _, None;
     duckdb_copy := λ _ _ _, CopyError "no input" None;
     unlink_error := λ _, None;
     parquet_table := no_table |}.

(** Downloads succeed and every conversion writes [out]. *)
Definition env_converting (out : bytes) : Env :=
  {| http_get := λ _, inr {| status_code := 200; body := [blob 3000; []; blob 50];
                             broken := None |};
     open_wb_error := λ _, None;
     duckdb_copy := λ _ _ _, CopyDone out;
     unlink_error := λ _, None;
     parquet_table := no_table |}.

(** Downloads succeed, every conversion fails leaving [part] behind, and
    deleting fails or not according to [locked]. *)
Definition env_failing (part : bytes) (locked : bool) : Env :=
  {| http_get := λ _, inr {| status_code := 200; body := [blob 3000]; broken := None |};
     open_wb_error := λ _, None;
     duckdb_copy := λ _ _ _, CopyError "IO Error" (Some part);
     unlink_error := λ _, if locked then Some "PermissionError" else None;
     parquet_table := no_table |}.

(* ===================================================================== *)
(** ** [update_gitignore] *)
(* ===================================================================== *)

Global Instance byte_eq_dec : EqDecision Byte.byte.
Proof.
  intros x y. destruct (Byte.eqb x y) eqn:E.
  - left. by apply Byte.byte_dec_bl.
  - right. by apply Byte.eqb_false.
Defined.

(** The line feed, and a text as the bytes written to a file. *)
Definition LF : string := String "010"%char EmptyString.

Definition text (s : string) : bytes := list_byte_of_string s.

(** [needle in content] *)
Fixpoint contains (needle content : bytes) : bool :=
  bool_decide (needle `prefix_of` content) ||
  match content with
  | [] => false
  | _ :: rest => contains needle rest
  end.

Definition GITIGNORE : string := ".gitignore".

Definition DATA_MARKER : bytes := text "data/".

(** ["# Data directory\ndata/\n"] *)
Definition DATA_ENTRY : bytes := text ("# Data directory" +:+ LF +:+ "data/" +:+ LF).

(** [p.read_text()], the text being the bytes of the file. *)
Definition read_text (p : string) : M bytes :=
  λ w, match files w !! p with
       | Some c => (Ok c, w)
       | None => (Raise "FileNotFoundError", w)
       end.

(** [with open(p, "a") as f: f.write(data)]: the file is created when
    missing and [data] goes to its end. *)
Definition append_text (p : string) (data : bytes) : M unit :=
  λ w, (Ok tt, set_files (λ m, <[p := default [] (m !! p) ++ data]> m) w).

Definition update_gitignore : M unit :=
  ex <- path_exists GITIGNORE ;;
  content <- (if ex : bool then read_text GITIGNORE else ret []) ;;
  if contains DATA_MARKER content then ret tt
  else
    append_text GITIGNORE
      (match content with
       | [] => DATA_ENTRY
       | _ => text LF ++ DATA_ENTRY
       end).

(* ===================================================================== *)
(** ** The [__main__] block *)
(* ===================================================================== *)



Section script.
Variable env : Env.


End script.

(** The URLs handed to [download_file] in a log, in call order. *)
Definition downloads (evs : list Event) : list string :=
  omap (λ e, match e with EvDownload url _ => Some url | _ => None end) evs.

(* ===================================================================== *)
(** ** Characters of the file names *)
(* ===================================================================== *)

Definition is_digit (c : ascii) : bool :=
  (48 <=? nat_of_ascii c)%nat && (nat_of_ascii c <=? 57)%nat.

Definition not_slash (c : ascii) : bool := negb (Ascii.eqb c "/").

Fixpoint all_chars (P : ascii → bool) (s : string) : bool :=
  match s with
  | EmptyString => true
  | String c s' => P c && all_chars P s'
  end.

Fixpoint last_char (s : string) : option ascii :=
  match s with
  | EmptyString => None
  | String c EmptyString => Some c
  | String _ s' => last_char s'
  end.

(* ===================================================================== *)
(** * Properties *)
(* ===================================================================== *)

(** ** The period generator *)

Section month_range_facts.

Lemma in_range_le y m ey em :
  in_range y m ey em = true ↔ period_le (y, m) (ey, em).
Proof.
  unfold in_range, period_le; simpl.
  rewrite orb_true_iff, andb_true_iff, Z.ltb_lt, Z.eqb_eq, Z.leb_le.
  tauto.
Qed.

Lemma in_range_false_gt y m ey em :
  in_range y m ey em = false ↔ period_lt (ey, em) (y, m).
Proof.
  unfold in_range, period_lt; simpl.
  rewrite orb_false_iff, andb_false_iff, Z.ltb_ge, Z.eqb_neq, Z.leb_gt.
  lia.
Qed.

Lemma advance_calendar p : calendar p → calendar (advance p).
Proof.
  destruct p as [y m]; unfold calendar, advance; simpl.
  destruct (Z.eqb_spec (m + 1) 13); simpl; lia.
Qed.

Lemma advance_lt p : period_lt p (advance p).
Proof.
  destruct p as [y m]; unfold period_lt, advance; simpl.
  destruct (Z.eqb_spec (m + 1) 13); simpl; lia.
Qed.

(** More fuel never changes a result. *)
Lemma month_range_more_fuel fuel fuel' y m ey em l :
  month_range fuel y m ey em = Some l → (fuel ≤ fuel')%nat →
  month_range fuel' y m ey em = Some l.
Proof.
  revert fuel' y m l.
  induction fuel as [|fuel IH]; intros fuel' y m l; simpl.
  - destruct (in_range y m ey em) eqn:E; [discriminate|].
    intros [= <-] _. destruct fuel'; simpl; by rewrite E.
  - destruct (in_range y m ey em) eqn:E.
    + destruct fuel' as [|fuel']; [lia|]. simpl. rewrite E.
      destruct (month_range fuel _ _ ey em) as [l'|] eqn:El; [|discriminate].
      intros [= <-] Hle. by rewrite (IH fuel' _ _ l' El) by lia.
    + intros [= <-] _. destruct fuel'; simpl; by rewrite E.
Qed.

(** The generator's observable behaviour from a calendar start month. *)
Lemma month_range_spec fuel y m ey em :
  1 <= m <= 12 →
  (month_fuel y m ey ≤ fuel)%nat →
  ∃ l, month_range fuel y m ey em = Some l
     ∧ (∀ p, p ∈ l ↔ calendar p ∧ period_le (y, m) p ∧ period_le p (ey, em))
     ∧ StronglySorted period_lt l
     ∧ chained (λ p q, q = advance p) l
     ∧ (∀ p, head l = Some p → p = (y, m)).
Proof.
  revert y m. induction fuel as [|fuel IH]; intros y m Hm Hfuel.
  - simpl. destruct (in_range y m ey em) eqn:E.
    + apply in_range_le in E. unfold period_le, month_fuel in *; simpl in *. lia.
    + apply in_range_false_gt in E. exists []. split; [done|].
      split; [|by repeat constructor]. intros [py pm]. split.
      * intros Hp; inversion Hp.
      * intros (_ & H1 & H2).
        unfold period_le, period_lt in *; simpl in *; lia.
  - simpl. destruct (in_range y m ey em) eqn:E.
    + apply in_range_le in E.
      pose proof (advance_calendar (y, m) Hm) as Hcal.
      pose proof (advance_lt (y, m)) as Hlt.
      destruct (advance (y, m)) as [y' m'] eqn:Hadv. simpl.
      destruct (IH y' m') as (l & -> & Hin & Hsort & Hch & Hhd).
      { exact Hcal. }
      { unfold advance in Hadv; simpl in Hadv. unfold month_fuel in *.
        destruct (Z.eqb_spec (m + 1) 13); injection Hadv as <- <-; lia. }
      exists ((y, m) :: l). split; [done|].
      assert (Hnext : ∀ p, calendar p → period_le (y', m') p ↔
                period_lt (y, m) p).
      { intros [py pm] Hp. unfold advance in Hadv; simpl in Hadv.
        unfold calendar, period_le, period_lt in *; simpl in *.
        destruct (Z.eqb_spec (m + 1) 13); injection Hadv as <- <-; lia. }
      refine (conj _ (conj _ (conj _ _))).
      * intros p. rewrite elem_of_cons, Hin. split.
        -- intros [->|(Hp & Hp1 & Hp2)].
           ++ unfold period_le; simpl. split; [done|]. split; [lia|done].
           ++ split; [done|]. split; [|done]. apply Hnext in Hp1; [|done].
              destruct p; unfold period_le, period_lt in *; simpl in *; lia.
        -- intros (Hp & Hp1 & Hp2).
           destruct (decide (p = (y, m))) as [->|Hne]; [by left|right].
           split; [done|]. split; [|done]. apply Hnext; [done|].
           destruct p as [py pm]. unfold period_le, period_lt in *; simpl in *.
           assert (¬ (py = y ∧ pm = m)) by (intros [-> ->]; done). lia.
      * constructor; [done|]. apply Forall_forall. intros p Hp.
        apply Hin in Hp as (Hp & Hp1 & _). by apply Hnext.
      * destruct l as [|q l]; constructor; [|done].
        rewrite Hadv. by apply Hhd.
      * by intros p [= <-].
    + apply in_range_false_gt in E. exists []. split; [done|].
      split; [|by repeat constructor]. intros [py pm]. split.
      * intros Hp; inversion Hp.
      * intros (_ & H1 & H2).
        unfold period_le, period_lt in *; simpl in *; lia.
Qed.

End month_range_facts.

(** Outside the calendar the carry at 13 is never met: from a month
    beyond 12 in a year before the end year the generator runs forever. *)
Lemma month_range_past_december (fuel : nat) (m : Z) :
  13 <= m → month_range fuel 2019 m 2020 1 = None.
Proof.
  revert m. induction fuel as [|fuel IH]; intros m Hm; simpl.
  - done.
  - unfold advance; simpl. destruct (Z.eqb_spec (m + 1) 13); [lia|].
    simpl. rewrite IH by lia. done.
Qed.

(** C6: from a calendar start period not after the end period,
    [month_range] terminates and yields exactly the calendar periods
    between start and end inclusive, in strictly ascending order, each one
    obtained from the previous by [advance] (December carries into January
    of the next year), starting at the start period; enumerating
    (2019,11) to (2020,2) yields the four expected periods. *)
Theorem month_range_enumerates (fuel : nat) (sy sm ey em : Z) :
  1 <= sm <= 12 →
  period_le (sy, sm) (ey, em) →
  (month_fuel sy sm ey ≤ fuel)%nat →
  (∃ l, month_range fuel sy sm ey em = Some l
      ∧ (∀ p, p ∈ l ↔ calendar p ∧ period_le (sy, sm) p ∧ period_le p (ey, em))
      ∧ StronglySorted period_lt l
      ∧ chained (λ p q, q = advance p) l
      ∧ head l = Some (sy, sm))
  ∧ (∀ fuel', (4 ≤ fuel')%nat →
       month_range fuel' 2019 11 2020 2
       = Some [(2019, 11); (2019, 12); (2020, 1); (2020, 2)]).
Proof.
  intros Hm Hle Hfuel. split.
  - destruct (month_range_spec fuel sy sm ey em Hm Hfuel)
      as (l & Hl & Hin & Hsort & Hch & Hhd).
    exists l. repeat (split; [done|]).
    destruct l as [|p l]; simpl.
    + exfalso. assert (H : (sy, sm) ∈ @nil Period); [|inversion H].
      apply Hin. unfold calendar, period_le in *; simpl in *. lia.
    + f_equal. by apply Hhd.
  - intros fuel' Hf. by apply (month_range_more_fuel 4).
Qed.

Lemma month_range_enumerates_witness :
  1 <= 11 <= 12 ∧ period_le (2019, 11) (2020, 2) ∧
  (month_fuel 2019 11 2020 ≤ 14)%nat ∧
  ∃ l, month_range 14 2019 11 2020 2 = Some l ∧ head l = Some (2019, 11).
Proof.
  assert (H1 : 1 <= 11 <= 12) by lia.
  assert (H2 : period_le (2019, 11) (2020, 2)) by (left; simpl; lia).
  assert (H3 : (month_fuel 2019 11 2020 ≤ 14)%nat) by (vm_compute; lia).
  split; [exact H1|]. split; [exact H2|]. split; [exact H3|].
  destruct (month_range_enumerates 14 2019 11 2020 2 H1 H2 H3)
    as [(l & Hl & _ & _ & _ & Hhd) _].
  exists l. by split.
Defined.

(** C10: when the start period is strictly after the end period,
    [month_range] yields nothing whatever the fuel, and
    [download_and_convert_fhv_files] returns two empty lists and leaves
    the world, its call log included, as it found it: neither the Fetcher
    nor the Converter is invoked. *)
Theorem empty_range_no_work (env : Env) (fuel : nat) (sy sm ey em : Z) (w : World) :
  period_lt (ey, em) (sy, sm) →
  month_range fuel sy sm ey em = Some []
  ∧ download_and_convert_fhv_files env fuel sy sm ey em w = Some (Ok ([], []), w).
Proof.
  intros Hgt. apply in_range_false_gt in Hgt.
  assert (Hr : month_range fuel sy sm ey em = Some []).
  { destruct fuel; simpl; by rewrite Hgt. }
  split; [done|]. unfold download_and_convert_fhv_files. by rewrite Hr.
Qed.

Lemma empty_range_no_work_witness :
  period_lt (2019, 1) (2019, 2)
  ∧ download_and_convert_fhv_files
      {| http_get := λ _, inl "unreachable"; open_wb_error := λ _, None;
         duckdb_copy := λ _ _ _, CopyError "unused" None;
         unlink_error := λ _, None;
         parquet_table := λ _, {| columns := []; rows := [] |} |}
      0 2019 2 2019 1
      {| files := ∅; tables := ∅; schemas := ∅; trace := [] |}
    = Some (Ok ([], []),
            {| files := ∅; tables := ∅; schemas := ∅; trace := [] |}).
Proof.
  assert (H : period_lt (2019, 1) (2019, 2)) by (right; simpl; lia).
  split; [exact H|].
  exact (proj2 (empty_range_no_work _ 0 2019 2 2019 1 _ H)).
Defined.

(** ** The monad and the primitives *)

Lemma set_files_id (f : gmap string bytes → gmap string bytes) w :
  f (files w) = files w → set_files f w = w.
Proof. destruct w; unfold set_files; simpl. by intros ->. Qed.

Lemma alter_twice (g1 g2 : bytes → bytes) (i : string) (m : gmap string bytes) :
  alter g2 i (alter g1 i m) = alter (λ c, g2 (g1 c)) i m.
Proof.
  apply map_eq. intros j. destruct (decide (i = j)) as [->|Hne].
  - rewrite !lookup_alter_eq. by destruct (m !! j).
  - by rewrite !lookup_alter_ne.
Qed.

Section contracts.
Variable env : Env.

(** The two tests of the loop decide the artifact's state. *)
Lemma looks_converted_classify p w :
  looks_converted p w = (Ok (bool_decide (classify w p = Valid)), w).
Proof.
  unfold looks_converted, classify, bind, path_exists, st_size, ret.
  destruct (files w !! p) as [c|] eqn:E; simpl; [|done].
  rewrite E. by destruct (MIN_SIZE <? Z.of_nat (length c)).
Qed.

Lemma looks_broken_classify p w :
  looks_broken p w = (Ok (bool_decide (classify w p = Broken)), w).
Proof.
  unfold looks_broken, classify, bind, path_exists, st_size, ret.
  destruct (files w !! p) as [c|] eqn:E; simpl; [|done].
  rewrite E. rewrite Z.leb_antisym.
  by destruct (MIN_SIZE <? Z.of_nat (length c)).
Qed.

(** The guarded deletion never raises, logs the attempt, and leaves
    every other path alone; the file is gone unless the deletion
    failed. *)
Lemma try_unlink_post p w :
  ∃ w', try_unlink env p w = (Ok tt, w')
      ∧ trace w' = trace w ++ [EvUnlink p]
      ∧ tables w' = tables w ∧ schemas w' = schemas w
      ∧ (∀ q, q ≠ p → files w' !! q = files w !! q)
      ∧ (files w' !! p = None
         ∨ (unlink_error env p ≠ None ∧ files w' !! p = files w !! p)).
Proof.
  unfold try_unlink, try_except, unlink, bind, log, ret. simpl.
  destruct (files w !! p) as [c|] eqn:E.
  - destruct (unlink_error env p) as [e|] eqn:Eu.
    + eexists; split; [done|]. simpl. repeat split; try done. right. by rewrite E.
    + eexists; split; [done|]. simpl. repeat split; try done.
      * intros q Hq. by rewrite lookup_delete_ne.
      * left. by rewrite lookup_delete_eq.
  - eexists; split; [done|]. simpl. repeat split; try done. by left.
Qed.

(** [if p.exists(): try_unlink]: the same, without a log entry when
    there is nothing to delete. *)
Lemma remove_if_exists_post p w :
  ∃ w', remove_if_exists env p w = (Ok tt, w')
      ∧ (∃ evs, trace w' = trace w ++ evs ∧ invocations evs = [])
      ∧ tables w' = tables w ∧ schemas w' = schemas w
      ∧ (∀ q, q ≠ p → files w' !! q = files w !! q)
      ∧ (files w' !! p = None
         ∨ (unlink_error env p ≠ None ∧ files w' !! p = files w !! p)).
Proof.
  unfold remove_if_exists, bind, path_exists.
  destruct (files w !! p) as [c|] eqn:E.
  - rewrite bool_decide_eq_true_2 by eauto.
    destruct (try_unlink_post p w) as (w' & -> & Ht & Htb & Hs & Hf & Hp).
    exists w'. split; [done|]. split; [exists [EvUnlink p]; by split|].
    rewrite <- E. done.
  - rewrite bool_decide_eq_false_2 by (intros [? ?]; done).
    exists w. split; [done|]. split; [exists []; by rewrite app_nil_r|].
    repeat split; try done. by left.
Qed.

(** Writing the chunks one by one, empty ones skipped, appends their
    concatenation. *)
Lemma write_chunks_run dest chunks w :
  write_chunks dest chunks w
  = (Ok tt, set_files (alter (λ c, c ++ concat chunks) dest) w).
Proof.
  revert w. induction chunks as [|chunk rest IH]; intros w; simpl.
  - unfold ret. f_equal. symmetry. apply set_files_id.
    apply alter_id. intros c _. by rewrite app_nil_r.
  - unfold bind in *. destruct chunk as [|x chunk].
    + unfold ret. by rewrite IH.
    + unfold f_write. rewrite IH. f_equal.
      unfold set_files; simpl. f_equal. rewrite alter_twice.
      apply alter_ext. intros c _. by rewrite <- app_assoc.
Qed.

End contracts.

(** ** The Fetcher and the Converter *)

Section services.
Variable env : Env.

(** What a caller of [download_file] can rely on, whatever the remote
    does: the call is logged first and is the only invocation it logs;
    only the destination path can change. *)
Lemma download_file_post url dest w :
  ∃ r w', download_file env url dest w = (r, w')
    ∧ (∃ rest, trace w' = trace w ++ EvDownload url dest :: rest
             ∧ invocations rest = [])
    ∧ tables w' = tables w ∧ schemas w' = schemas w
    ∧ (∀ q, q ≠ dest → files w' !! q = files w !! q).
Proof.
  unfold download_file, bind, log, requests_get, raise_for_status, open_wb,
    stream_to, bind, raise, ret. simpl.
  destruct (http_get env url) as [e|resp].
  { do 2 eexists. split; [done|]. simpl. split; [by exists []|done]. }
  destruct (http_error_status (status_code resp)).
  { do 2 eexists. split; [done|]. simpl. split; [by exists []|done]. }
  simpl. destruct (open_wb_error env dest) as [e|].
  { do 2 eexists. split; [done|]. simpl.
    split; [exists [EvOpenWrite dest]; by rewrite <- app_assoc|done]. }
  rewrite write_chunks_run.
  destruct (broken resp) as [e|]; do 2 eexists; (split; [done|]); simpl;
    (split; [exists [EvOpenWrite dest]; by rewrite <- app_assoc|]); repeat split; try done;
    intros q Hq; by rewrite lookup_alter_ne, lookup_insert_ne.
Qed.

(** What a caller of [convert_csv_gz_to_parquet] can rely on: the call
    is logged first and is the only invocation it logs; only the parquet
    path can change; on return the parquet file is DuckDB's output; on
    an exception, the exception is DuckDB's, the parquet file is gone
    unless its deletion failed, and a file still there has seen a
    deletion attempt as the last logged call. *)
Lemma convert_post csv pq w :
  ∃ r w', convert_csv_gz_to_parquet env csv pq w = (r, w')
    ∧ (∃ rest, trace w' = trace w ++ EvConvert csv pq :: rest
             ∧ invocations rest = []
             ∧ (is_Some (files w' !! pq) → r ≠ Ok tt → rest = [EvUnlink pq]))
    ∧ tables w' = tables w ∧ schemas w' = schemas w
    ∧ (∀ q, q ≠ pq → files w' !! q = files w !! q)
    ∧ match r with
      | Ok _ => ∃ out, duckdb_copy env (files w !! csv) csv pq = CopyDone out
                     ∧ files w' !! pq = Some out
      | Raise e => (∃ part, duckdb_copy env (files w !! csv) csv pq = CopyError e part)
                 ∧ (unlink_error env pq = None → files w' !! pq = None)
      end.
Proof.
  unfold convert_csv_gz_to_parquet, bind, log, try_except, duckdb_execute_copy,
    path_exists, raise. simpl.
  destruct (duckdb_copy env (files w !! csv) csv pq) as [out|e [part|]] eqn:Ec.
  - do 2 eexists. split; [done|]. simpl.
    split; [exists []; repeat split; try done; by intros _ []|].
    repeat split; try done.
    + intros q Hq. by rewrite lookup_insert_ne.
    + exists out. by rewrite lookup_insert_eq.
  - simpl. rewrite lookup_insert_eq.
    rewrite bool_decide_eq_true_2 by eauto.
    match goal with |- context [try_unlink env pq ?w1] =>
      destruct (try_unlink_post env pq w1) as (w' & -> & Ht & Htb & Hs & Hf & Hp)
    end. simpl in *.
    do 2 eexists. split; [done|].
    split; [exists [EvUnlink pq]; by rewrite Ht, <- app_assoc|].
    repeat split; try done.
    + intros q Hq. by rewrite Hf, lookup_insert_ne.
    + by exists (Some part).
    + intros Hu. destruct Hp as [Hp|[Hp _]]; done.
  - simpl. destruct (files w !! pq) as [c|] eqn:E.
    + rewrite bool_decide_eq_true_2 by eauto.
      match goal with |- context [try_unlink env pq ?w1] =>
        destruct (try_unlink_post env pq w1) as (w' & -> & Ht & Htb & Hs & Hf & Hp)
      end. simpl in *.
      do 2 eexists. split; [done|].
      split; [exists [EvUnlink pq]; by rewrite Ht, <- app_assoc|].
      repeat split; try done.
      * by exists None.
      * intros Hu. destruct Hp as [Hp|[Hp _]]; done.
    + rewrite bool_decide_eq_false_2 by (intros [? ?]; done).
      do 2 eexists. split; [done|]. simpl.
      split; [exists []; repeat split; try done; rewrite E; by intros [? ?]|].
      repeat split; try done. by exists None.
Qed.

End services.

(** C9: when the remote answers with an HTTP error status (the 4xx and
    5xx classes, for which [raise_for_status] raises), [download_file]
    raises having logged nothing but its own call: the destination is
    never opened for writing, no file is touched, and a destination that
    did not exist still does not. *)
Theorem download_file_http_error (env : Env) (url dest : string) (w : World)
    (resp : Response) :
  http_get env url = inr resp →
  400 <= status_code resp < 600 →
  ∃ e w', download_file env url dest w = (Raise e, w')
        ∧ trace w' = trace w ++ [EvDownload url dest]
        ∧ files w' = files w
        ∧ (files w !! dest = None → files w' !! dest = None).
Proof.
  intros Hget Hst.
  unfold download_file, bind, log, requests_get, raise_for_status, raise.
  simpl. rewrite Hget.
  replace (http_error_status (status_code resp)) with true
    by (unfold http_error_status; symmetry; apply andb_true_iff; lia).
  do 2 eexists. split; [done|]. simpl. by repeat split.
Qed.

Lemma download_file_http_error_witness :
  (∃ e w', download_file env_404 "http://host/f" "f" empty_world = (Raise e, w')
         ∧ files w' = files empty_world).
Proof.
  destruct (download_file_http_error env_404 "http://host/f" "f" empty_world
              {| status_code := 404; body := []; broken := None |})
    as (e & w' & H & _ & Hf & _).
  - reflexivity.
  - simpl; lia.
  - by exists e, w'.
Defined.

(** C8, as the code has it: when [convert_csv_gz_to_parquet] fails, the
    exception that reaches the caller is the conversion's own, no other
    path has changed, and the parquet path holds no file provided the
    deletion of the partial file did not itself fail; that deletion is
    attempted whenever a file is there, and a file that survives it has
    the deletion attempt as the last logged call. *)
Theorem convert_failure_cleanup (env : Env) (csv pq : string) (w w' : World)
    (e : string) :
  convert_csv_gz_to_parquet env csv pq w = (Raise e, w') →
  (∃ part, duckdb_copy env (files w !! csv) csv pq = CopyError e part)
  ∧ (unlink_error env pq = None → files w' !! pq = None)
  ∧ (is_Some (files w' !! pq) → last (trace w') = Some (EvUnlink pq))
  ∧ (∀ q, q ≠ pq → files w' !! q = files w !! q).
Proof.
  intros Hrun.
  destruct (convert_post env csv pq w)
    as (r & w1 & Hr & (rest & Ht & _ & Hlast) & _ & _ & Hf & Hres).
  rewrite Hrun in Hr. injection Hr as <- <-.
  destruct Hres as [Hcopy Hgone]. repeat split; try done.
  intros Hsome. rewrite Ht, (Hlast Hsome) by done.
  by rewrite last_app.
Qed.

Lemma convert_failure_cleanup_witness :
  ∃ e w',
    convert_csv_gz_to_parquet (env_failing (blob 10) false)
      "in.csv.gz" "out.parquet" empty_world = (Raise e, w')
    ∧ files w' !! "out.parquet" = None.
Proof.
  eassert (E : convert_csv_gz_to_parquet (env_failing (blob 10) false)
                 "in.csv.gz" "out.parquet" empty_world = (Raise _, _))
    by (vm_compute; reflexivity).
  destruct (convert_failure_cleanup _ _ _ _ _ _ E) as (_ & Hgone & _).
  do 2 eexists. split; [exact E|]. apply Hgone. reflexivity.
Defined.

(** C8 as stated fails: a partial parquet file whose deletion fails is
    still there when the conversion error reaches the caller. *)
Lemma convert_failure_may_leave_file :
  ¬ (∀ (env : Env) (csv pq : string) (w w' : World) (e : string),
       convert_csv_gz_to_parquet env csv pq w = (Raise e, w') →
       files w' !! pq = None).
Proof.
  intros H.
  eassert (E : convert_csv_gz_to_parquet (env_failing (blob 10) true)
                 "in.csv.gz" "out.parquet" empty_world = (Raise _, _))
    by (vm_compute; reflexivity).
  apply H in E. vm_compute in E. discriminate.
Qed.

(** ** One unit of the batch *)

Lemma csv_gz_ne_parquet (p : Period) : csv_gz_filepath p ≠ parquet_filepath p.
Proof.
  unfold csv_gz_filepath, parquet_filepath, joinpath, csv_gz_filename,
    parquet_filename.
  intros H. do 3 apply String.app_inj in H. discriminate.
Qed.

Lemma add_success_ne_failure b b0 q name msg :
  add_success b q = add_failure b0 name msg → successes b0 ≠ successes b.
Proof.
  unfold add_success, add_failure. intros [= Hs Hf] Heq.
  rewrite Heq in Hs. apply (f_equal length) in Hs.
  rewrite length_app in Hs. simpl in Hs. lia.
Qed.

Section unit_contract.
Variable env : Env.

(** Download, convert and clean up: never raises; logs the download
    first, and the conversion whenever the download returned; ends on
    the guarded deletion of the csv.gz; records a success only for a
    conversion that returned, whose output is then the parquet file. *)
Lemma fetch_and_convert_post b p w :
  let csv := csv_gz_filepath p in
  let pq := parquet_filepath p in
  ∃ b' w' rest,
    fetch_and_convert env b p w = (Ok b', w')
    ∧ trace w' = trace w ++ EvDownload (fhv_url p) csv :: rest
    ∧ (∀ w1, download_file env (fhv_url p) csv w = (Ok tt, w1) →
             EvConvert csv pq ∈ rest)
    ∧ tables w' = tables w ∧ schemas w' = schemas w
    ∧ (∀ q, q ≠ csv → q ≠ pq → files w' !! q = files w !! q)
    ∧ (files w' !! csv = None ∨ unlink_error env csv ≠ None)
    ∧ ((b' = add_success b pq
        ∧ EvConvert csv pq ∈ rest
        ∧ ∃ src out, duckdb_copy env src csv pq = CopyDone out
                   ∧ files w' !! pq = Some out)
       ∨ (∃ msg, b' = add_failure b (csv_gz_filename p) msg
               ∧ (unlink_error env pq = None → files w !! pq = None →
                  files w' !! pq = None))).
Proof.
  intros csv pq. pose proof (csv_gz_ne_parquet p) as Hne.
  fold csv pq in Hne.
  unfold fetch_and_convert. fold csv pq. unfold bind at 1, try_except at 1, bind at 1.
  destruct (download_file_post env (fhv_url p) csv w)
    as (r & w1 & Hd & (rest1 & Ht1 & _) & Htb1 & Hs1 & Hf1).
  rewrite Hd. destruct r as [[]|e]; unfold ret at 1.
  - (* the download returned *)
    unfold try_finally, try_except, bind.
    destruct (convert_post env csv pq w1)
      as (r2 & w2 & Hc & (rest2 & Ht2 & _) & Htb2 & Hs2 & Hf2 & Hres).
    rewrite Hc.
    assert (Hin : EvConvert csv pq ∈ rest1 ++ EvConvert csv pq :: rest2)
      by (apply elem_of_app; right; left).
    destruct r2 as [[]|e2]; unfold ret;
      destruct (remove_if_exists_post env csv w2)
        as (w3 & -> & (evs & Ht3 & _) & Htb3 & Hs3 & Hf3 & Hgone);
      eexists _, w3, (rest1 ++ EvConvert csv pq :: rest2 ++ evs);
      (split; [done|]);
      (split; [rewrite Ht3, Ht2, Ht1; by rewrite <- !app_assoc|]);
      (split; [intros _ _; rewrite elem_of_app, elem_of_cons; tauto|]);
      (split; [congruence|]); (split; [congruence|]);
      (split; [intros q Hq1 Hq2; by rewrite Hf3, Hf2, Hf1|]);
      (split; [tauto|]).
    + left. split; [done|]. split; [rewrite elem_of_app, elem_of_cons; tauto|].
      destruct Hres as (out & Hcopy & Hout).
      exists (files w1 !! csv), out. split; [done|]. by rewrite Hf3.
    + right. eexists. split; [done|]. intros Hu _.
      rewrite Hf3 by done. by apply Hres.
  - (* the download raised *)
    unfold bind.
    destruct (remove_if_exists_post env csv w1)
      as (w3 & -> & (evs & Ht3 & _) & Htb3 & Hs3 & Hf3 & Hgone).
    unfold ret.
    eexists _, w3, (rest1 ++ evs). split; [done|].
    split; [rewrite Ht3, Ht1; by rewrite <- !app_assoc|].
    split; [intros ? [=]|].
    split; [congruence|]. split; [congruence|].
    split; [intros q Hq1 Hq2; by rewrite Hf3, Hf1|].
    split; [tauto|].
    right. eexists. split; [done|]. intros _ Hnone.
    by rewrite Hf3, Hf1.
Qed.

End unit_contract.

Section unit_paths.
Variable env : Env.

(** The skip path: a parquet file above the size threshold is recorded
    as a success and nothing else happens. *)
Lemma process_unit_valid b p w :
  classify w (parquet_filepath p) = Valid →
  process_unit env b p w = (Ok (add_success b (parquet_filepath p)), w).
Proof.
  intros Hv. unfold process_unit, bind.
  rewrite looks_converted_classify. by rewrite bool_decide_eq_true_2.
Qed.

(** Every other path: a tiny parquet file is deleted (guarded), then
    the unit is fetched and converted. *)
Lemma process_unit_not_valid b p w :
  classify w (parquet_filepath p) ≠ Valid →
  process_unit env b p w
  = fetch_and_convert env b p
      (if bool_decide (classify w (parquet_filepath p) = Broken)
       then (try_unlink env (parquet_filepath p) w).2 else w).
Proof.
  intros Hv. unfold process_unit, bind at 1.
  rewrite looks_converted_classify. rewrite bool_decide_eq_false_2 by done.
  unfold bind at 1. rewrite looks_broken_classify.
  unfold bind at 1. destruct (bool_decide _); [|done].
  by destruct (try_unlink_post env (parquet_filepath p) w) as (w1 & -> & _).
Qed.

(** A unit never raises and appends exactly one entry to one list. *)
Lemma process_unit_total b p w :
  ∃ (o : option string) w',
    process_unit env b p w = (Ok (record_outcomes b [(p, o)]), w').
Proof.
  destruct (decide (classify w (parquet_filepath p) = Valid)) as [Hv|Hv].
  - exists None, w. rewrite process_unit_valid by done.
    unfold record_outcomes, add_success; simpl. by rewrite app_nil_r.
  - rewrite process_unit_not_valid by done.
    match goal with |- context [fetch_and_convert env b p ?w1] =>
      destruct (fetch_and_convert_post env b p w1)
        as (b' & w' & rest & -> & _ & _ & _ & _ & _ & _ & Hb)
    end.
    destruct Hb as [(-> & _)|(msg & -> & _)].
    + exists None, w'. unfold record_outcomes, add_success; simpl.
      by rewrite app_nil_r.
    + exists (Some msg), w'. unfold record_outcomes, add_failure; simpl.
      by rewrite app_nil_r.
Qed.

Lemma record_outcomes_app b os1 os2 :
  record_outcomes (record_outcomes b os1) os2 = record_outcomes b (os1 ++ os2).
Proof.
  unfold record_outcomes; simpl. by rewrite !omap_app, !app_assoc.
Qed.

(** The loop runs every unit: its result is an outcome per period, in
    the order of the periods. *)
Lemma for_each_process_unit ps b w :
  ∃ (os : list Outcome) w',
    for_each (process_unit env) ps b w = (Ok (record_outcomes b os), w')
    ∧ os.*1 = ps.
Proof.
  revert b w. induction ps as [|p ps IH]; intros b w; simpl.
  - exists [], w. split; [|done]. unfold ret, record_outcomes; simpl.
    rewrite !app_nil_r. by destruct b.
  - unfold bind.
    destruct (process_unit_total b p w) as (o & w1 & ->).
    destruct (IH (record_outcomes b [(p, o)]) w1) as (os & w' & -> & Hos).
    exists ((p, o) :: os), w'. split; [|by rewrite <- Hos].
    by rewrite record_outcomes_app.
Qed.

End unit_paths.

(** ** Counting and ordering the outcomes *)

Lemma outcomes_length (os : list Outcome) :
  (length (omap outcome_success os) + length (omap outcome_failure os)
   = length os)%nat.
Proof.
  induction os as [|[p [msg|]] os IH]; [done| |];
    unfold omap in *; simpl; lia.
Qed.

Lemma outcomes_successes (os : list Outcome) :
  omap outcome_success os = parquet_filepath <$> succeeded os.
Proof.
  unfold succeeded.
  induction os as [|[p [msg|]] os IH]; [done| |].
  - rewrite filter_cons_False by (simpl; congruence). exact IH.
  - rewrite filter_cons_True by done. by rewrite !fmap_cons, <- IH.
Qed.

Lemma outcomes_failures (os : list Outcome) :
  (omap outcome_failure os).*1 = csv_gz_filename <$> failed os.
Proof.
  unfold failed.
  induction os as [|[p [msg|]] os IH]; [done| |].
  - rewrite filter_cons_True by done. by rewrite !fmap_cons, <- IH.
  - rewrite filter_cons_False by (simpl; intros H; by apply H). exact IH.
Qed.

Lemma outcomes_partition (os : list Outcome) :
  succeeded os ++ failed os ≡ₚ os.*1.
Proof.
  unfold succeeded, failed. rewrite <- fmap_app.
  by rewrite (filter_app_complement (λ o : Outcome, o.2 = None) os).
Qed.


Lemma StronglySorted_sublist {A} (R : A → A → Prop) (l1 l2 : list A) :
  sublist l1 l2 → StronglySorted R l2 → StronglySorted R l1.
Proof.
  induction 1 as [|x l1 l2 Hsub IH|x l1 l2 Hsub IH]; intros Hs.
  - constructor.
  - apply StronglySorted_inv in Hs as [Hs Hall]. constructor; [by apply IH|].
    apply Forall_forall. intros y Hy.
    eapply Forall_forall in Hall; [done|]. by eapply elem_of_sublist.
  - apply StronglySorted_inv in Hs as [Hs _]. by apply IH.
Qed.

Lemma classify_absent w p : classify w p = Absent ↔ files w !! p = None.
Proof.
  unfold classify. destruct (files w !! p) as [c|]; [|done].
  destruct (MIN_SIZE <? Z.of_nat (length c)); split; discriminate.
Qed.

Lemma classify_broken w p :
  classify w p = Broken ↔
  ∃ c, files w !! p = Some c ∧ Z.of_nat (length c) <= MIN_SIZE.
Proof.
  unfold classify. destruct (files w !! p) as [c|].
  - destruct (Z.ltb_spec MIN_SIZE (Z.of_nat (length c))); split.
    + discriminate.
    + intros (c' & [= <-] & Hc). lia.
    + intros _. exists c. split; [done|lia].
    + done.
  - split; [discriminate|]. by intros (c & ? & _).
Qed.

(** ** The batch *)

Section batch.
Variable env : Env.

(** The function returns as soon as the generator does, with one
    outcome per period. *)
Lemma download_and_convert_run fuel sy sm ey em periods w :
  month_range fuel sy sm ey em = Some periods →
  ∃ (os : list Outcome) w',
    download_and_convert_fhv_files env fuel sy sm ey em w
    = Some (Ok (omap outcome_success os, omap outcome_failure os), w')
    ∧ os.*1 = periods.
Proof.
  intros Hr. unfold download_and_convert_fhv_files. rewrite Hr. simpl.
  unfold bind.
  destruct (for_each_process_unit env periods
              {| successes := []; failures := [] |} w) as (os & w' & -> & Hos).
  by exists os, w'.
Qed.


End batch.

(** C1: from a calendar start month, with fuel for the generator,
    [download_and_convert_fhv_files] returns; every enumerated period is
    recorded exactly once, as a success or as a failure, so the two lists
    together are as long as the enumeration; the failures are the failed
    periods in ascending order, by their csv.gz names, and the successes
    are the parquet paths of the other periods in order. *)
Theorem batch_records_every_period (env : Env) (fuel : nat)
    (sy sm ey em : Z) (w : World) :
  1 <= sm <= 12 →
  (month_fuel sy sm ey ≤ fuel)%nat →
  ∃ periods succs fails w' ok bad,
    month_range fuel sy sm ey em = Some periods
    ∧ download_and_convert_fhv_files env fuel sy sm ey em w
      = Some (Ok (succs, fails), w')
    ∧ (length succs + length fails = length periods)%nat
    ∧ ok ++ bad ≡ₚ periods
    ∧ sublist bad periods ∧ StronglySorted period_lt bad
    ∧ fails.*1 = csv_gz_filename <$> bad
    ∧ sublist ok periods ∧ StronglySorted period_lt ok
    ∧ succs = parquet_filepath <$> ok.
Proof.
  intros Hm Hfuel.
  destruct (month_range_spec fuel sy sm ey em Hm Hfuel)
    as (periods & Hr & _ & Hsorted & _).
  destruct (download_and_convert_run env fuel sy sm ey em periods w Hr)
    as (os & w' & Hrun & Hos).
  assert (Hbad : sublist (failed os) periods).
  { rewrite <- Hos. unfold failed. apply fmap_sublist, sublist_filter. }
  assert (Hok : sublist (succeeded os) periods).
  { rewrite <- Hos. unfold succeeded. apply fmap_sublist, sublist_filter. }
  exists periods, (omap outcome_success os), (omap outcome_failure os), w',
    (succeeded os), (failed os).
  split; [done|]. split; [done|].
  split; [by rewrite outcomes_length, <- Hos, length_fmap|].
  split; [by rewrite outcomes_partition, Hos|].
  split; [done|]. split; [by eapply StronglySorted_sublist|].
  split; [apply outcomes_failures|].
  split; [done|]. split; [by eapply StronglySorted_sublist|].
  apply outcomes_successes.
Qed.

Lemma batch_records_every_period_witness :
  1 <= 11 <= 12 ∧ (month_fuel 2019 11 2020 ≤ 14)%nat ∧
  ∃ succs fails w',
    download_and_convert_fhv_files env_404 14 2019 11 2020 2 empty_world
    = Some (Ok (succs, fails), w')
    ∧ (length succs + length fails = 4)%nat.
Proof.
  assert (H1 : 1 <= 11 <= 12) by lia.
  assert (H2 : (month_fuel 2019 11 2020 ≤ 14)%nat) by (vm_compute; lia).
  split; [exact H1|]. split; [exact H2|].
  destruct (batch_records_every_period env_404 14 2019 11 2020 2 empty_world H1 H2)
    as (periods & succs & fails & w' & ok & bad & Hr & Hrun & Hlen & _).
  exists succs, fails, w'. split; [exact Hrun|].
  vm_compute in Hr. injection Hr as <-. exact Hlen.
Defined.




(** C3, as the code has it: provided the guarded deletions of the
    parquet file do not fail, a unit always completes and then: a skipped
    unit leaves its artifact above the threshold; a unit recorded as a
    failure leaves no file at the artifact path; and the artifact is at or
    below the threshold only when the conversion itself returned with so
    small an output, the unit being recorded as a success. *)
Theorem artifact_after_unit (env : Env) (b : Batch) (p : Period) (w : World) :
  unlink_error env (parquet_filepath p) = None →
  ∃ b' w',
    process_unit env b p w = (Ok b', w')
    ∧ (classify w (parquet_filepath p) = Valid →
       classify w' (parquet_filepath p) = Valid)
    ∧ ((∃ msg, b' = add_failure b (csv_gz_filename p) msg) →
       classify w' (parquet_filepath p) = Absent)
    ∧ (classify w' (parquet_filepath p) = Broken →
       b' = add_success b (parquet_filepath p)
       ∧ ∃ src out,
           duckdb_copy env src (csv_gz_filepath p) (parquet_filepath p) = CopyDone out
           ∧ files w' !! parquet_filepath p = Some out
           ∧ Z.of_nat (length out) <= MIN_SIZE).
Proof.
  intros Hu.
  destruct (decide (classify w (parquet_filepath p) = Valid)) as [Hv|Hv].
  - exists (add_success b (parquet_filepath p)), w.
    split; [by apply process_unit_valid|]. split; [done|]. split.
    + intros (msg & Hb). by apply add_success_ne_failure in Hb.
    + rewrite Hv. discriminate.
  - rewrite process_unit_not_valid by done.
    set (w1 := if bool_decide (classify w (parquet_filepath p) = Broken)
               then (try_unlink env (parquet_filepath p) w).2 else w).
    assert (Hnone : files w1 !! parquet_filepath p = None).
    { unfold w1. case_bool_decide as Hb.
      - destruct (try_unlink_post env (parquet_filepath p) w)
          as (w2 & -> & _ & _ & _ & _ & [Hg|[Hg _]]); done.
      - apply classify_absent.
        destruct (classify w (parquet_filepath p)); done. }
    destruct (fetch_and_convert_post env b p w1)
      as (b' & w' & rest & -> & _ & _ & _ & _ & _ & _ & Hb).
    exists b', w'. split; [done|]. split; [done|].
    destruct Hb as [(-> & _ & src & out & Hcopy & Hout)|(msg & -> & Hgone)].
    + split.
      * intros (msg & Hb). by apply add_success_ne_failure in Hb.
      * intros Hbr. split; [done|]. exists src, out.
        apply classify_broken in Hbr as (c & Hc & Hlen).
        rewrite Hout in Hc. injection Hc as <-. done.
    + split.
      * intros _. apply classify_absent. by apply Hgone.
      * intros Hbr. apply classify_broken in Hbr as (c & Hc & _).
        rewrite Hgone in Hc by done. discriminate.
Qed.

Lemma artifact_after_unit_witness :
  ∃ b' w',
    process_unit (env_failing (blob 2000) false)
      {| successes := []; failures := [] |} (2019, 1)
      (world_with [(parquet_filepath (2019, 1), blob 7)]) = (Ok b', w')
    ∧ classify w' (parquet_filepath (2019, 1)) = Absent.
Proof.
  destruct (artifact_after_unit (env_failing (blob 2000) false)
              {| successes := []; failures := [] |} (2019, 1)
              (world_with [(parquet_filepath (2019, 1), blob 7)]))
    as (b' & w' & Hrun & _ & Hfail & _).
  - reflexivity.
  - exists b', w'. split; [exact Hrun|]. apply Hfail.
    vm_compute in Hrun. injection Hrun as <- _. by eexists.
Defined.

(** C3 as stated fails: a conversion that returns with a small output
    leaves the artifact at or below the threshold at the end of the
    unit. *)
Lemma small_output_left_broken :
  ¬ (∀ (env : Env) (b b' : Batch) (p : Period) (w w' : World),
       process_unit env b p w = (Ok b', w') →
       classify w' (parquet_filepath p) ≠ Broken).
Proof.
  intros H.
  eassert (E : process_unit (env_converting (blob 100))
                 {| successes := []; failures := [] |} (2019, 1) empty_world
               = (Ok _, _)) by (vm_compute; reflexivity).
  apply H in E. apply E. vm_compute. reflexivity.
Qed.

(** C4, as the code has it: a unit always completes; when it is not
    skipped and the guarded deletion of the csv.gz does not fail, no file
    is left at the csv.gz path, whether the unit succeeded or failed; a
    skipped unit leaves the world, a csv.gz included, as it was. *)
Theorem staging_after_unit (env : Env) (b : Batch) (p : Period) (w : World) :
  ∃ b' w',
    process_unit env b p w = (Ok b', w')
    ∧ (classify w (parquet_filepath p) ≠ Valid →
       unlink_error env (csv_gz_filepath p) = None →
       files w' !! csv_gz_filepath p = None)
    ∧ (classify w (parquet_filepath p) = Valid → w' = w).
Proof.
  destruct (decide (classify w (parquet_filepath p) = Valid)) as [Hv|Hv].
  - exists (add_success b (parquet_filepath p)), w.
    split; [by apply process_unit_valid|]. done.
  - rewrite process_unit_not_valid by done.
    match goal with |- context [fetch_and_convert env b p ?w1] =>
      destruct (fetch_and_convert_post env b p w1)
        as (b' & w' & rest & -> & _ & _ & _ & _ & _ & Hgone & _)
    end.
    exists b', w'. split; [done|]. split; [|done].
    intros _ Hu. by destruct Hgone.
Qed.

Lemma staging_after_unit_witness :
  ∃ b' w',
    process_unit (env_failing (blob 2000) false)
      {| successes := []; failures := [] |} (2019, 1)
      (world_with [(csv_gz_filepath (2019, 1), blob 7)]) = (Ok b', w')
    ∧ files w' !! csv_gz_filepath (2019, 1) = None.
Proof.
  destruct (staging_after_unit (env_failing (blob 2000) false)
              {| successes := []; failures := [] |} (2019, 1)
              (world_with [(csv_gz_filepath (2019, 1), blob 7)]))
    as (b' & w' & Hrun & Hgone & _).
  exists b', w'. split; [exact Hrun|]. apply Hgone.
  - vm_compute. discriminate.
  - reflexivity.
Defined.

(** C4 as stated fails: a skipped unit does not touch a csv.gz left
    next to its parquet file. *)
Lemma skipped_unit_keeps_staging :
  ¬ (∀ (env : Env) (b b' : Batch) (p : Period) (w w' : World),
       process_unit env b p w = (Ok b', w') →
       files w' !! csv_gz_filepath p = None).
Proof.
  intros H.
  eassert (E : process_unit env_404 {| successes := []; failures := [] |} (2019, 1)
                 (world_with [(parquet_filepath (2019, 1), blob 2000);
                              (csv_gz_filepath (2019, 1), blob 7)])
               = (Ok _, _)) by (vm_compute; reflexivity).
  apply H in E. vm_compute in E. discriminate.
Qed.

(** A csv.gz whose deletion fails also stays, on the other paths. *)
Example locked_staging_stays :
  ∃ b' w',
    process_unit (env_failing (blob 2000) true)
      {| successes := []; failures := [] |} (2019, 1) empty_world = (Ok b', w')
    ∧ is_Some (files w' !! csv_gz_filepath (2019, 1)).
Proof. do 2 eexists. split; [vm_compute; reflexivity|]. vm_compute. eauto. Qed.

(** C7: a unit that finds its parquet file at or below the threshold
    first deletes it (guarded: the deletion is logged, and the file is
    gone unless the deletion failed), and then runs the download and
    conversion from that state: the download is the next logged call, the
    conversion follows whenever the download returned, and the unit is
    recorded as a success only for a conversion that ran and returned,
    never by the skip path. *)
Theorem broken_artifact_is_retried (env : Env) (b : Batch) (p : Period) (w : World) :
  classify w (parquet_filepath p) = Broken →
  ∃ w1 b' w' rest,
    try_unlink env (parquet_filepath p) w = (Ok tt, w1)
    ∧ trace w1 = trace w ++ [EvUnlink (parquet_filepath p)]
    ∧ (unlink_error env (parquet_filepath p) = None →
       classify w1 (parquet_filepath p) = Absent)
    ∧ process_unit env b p w = fetch_and_convert env b p w1
    ∧ process_unit env b p w = (Ok b', w')
    ∧ trace w' = trace w ++ EvUnlink (parquet_filepath p)
                   :: EvDownload (fhv_url p) (csv_gz_filepath p) :: rest
    ∧ (∀ w2, download_file env (fhv_url p) (csv_gz_filepath p) w1 = (Ok tt, w2) →
             EvConvert (csv_gz_filepath p) (parquet_filepath p) ∈ rest)
    ∧ (b' = add_success b (parquet_filepath p) →
       EvConvert (csv_gz_filepath p) (parquet_filepath p) ∈ rest
       ∧ ∃ src out,
           duckdb_copy env src (csv_gz_filepath p) (parquet_filepath p) = CopyDone out
           ∧ files w' !! parquet_filepath p = Some out).
Proof.
  intros Hb.
  assert (Hv : classify w (parquet_filepath p) ≠ Valid) by (rewrite Hb; discriminate).
  pose proof (process_unit_not_valid env b p w Hv) as Hrun.
  rewrite bool_decide_eq_true_2 in Hrun by done.
  destruct (try_unlink_post env (parquet_filepath p) w)
    as (w1 & Hw1 & Ht1 & _ & _ & _ & Hgone).
  rewrite Hw1 in Hrun. simpl in Hrun.
  destruct (fetch_and_convert_post env b p w1)
    as (b' & w' & rest & Hfc & Ht & Hconv & _ & _ & _ & _ & Hres).
  exists w1, b', w', rest.
  split; [done|]. split; [done|].
  split; [intros Hu; apply classify_absent; by destruct Hgone as [?|[? _]]|].
  split; [done|]. split; [by rewrite Hrun|].
  split; [by rewrite Ht, Ht1, <- app_assoc|].
  split; [done|].
  intros ->. destruct Hres as [(_ & Hin & Hout)|(msg & Hbad & _)]; [done|].
  by apply add_success_ne_failure in Hbad.
Qed.

Lemma broken_artifact_is_retried_witness :
  classify (world_with [(parquet_filepath (2019, 1), blob 7)])
    (parquet_filepath (2019, 1)) = Broken
  ∧ ∃ b' w' rest,
      process_unit (env_converting (blob 2000))
        {| successes := []; failures := [] |} (2019, 1)
        (world_with [(parquet_filepath (2019, 1), blob 7)]) = (Ok b', w')
      ∧ trace w' = EvUnlink (parquet_filepath (2019, 1))
                   :: EvDownload (fhv_url (2019, 1)) (csv_gz_filepath (2019, 1))
                   :: rest.
Proof.
  assert (H : classify (world_with [(parquet_filepath (2019, 1), blob 7)])
                (parquet_filepath (2019, 1)) = Broken) by (vm_compute; reflexivity).
  split; [exact H|].
  destruct (broken_artifact_is_retried (env_converting (blob 2000))
              {| successes := []; failures := [] |} (2019, 1) _ H)
    as (w1 & b' & w' & rest & _ & _ & _ & _ & Hrun & Ht & _).
  exists b', w', rest. split; [exact Hrun|exact Ht].
Defined.

(** ** The loader *)

Global Instance path_le_total : Total path_le.
Proof. intros a b. apply String.leb_total. Qed.

Global Instance path_le_trans : Transitive path_le.
Proof.
  intros a b c. unfold path_le, String.leb.
  destruct (String.compare a b) eqn:E1; [| |done].
  - by apply String.compare_eq_iff in E1 as ->.
  - destruct (String.compare b c) eqn:E2; [| |done]; intros _ _.
    + apply String.compare_eq_iff in E2 as <-. by rewrite E1.
    + apply OrderedTypeEx.String_as_OT.cmp_lt in E1, E2.
      pose proof (OrderedTypeEx.String_as_OT.lt_trans _ _ _ E1 E2) as H.
      apply OrderedTypeEx.String_as_OT.cmp_lt in H.
      unfold OrderedTypeEx.String_as_OT.cmp in H. by rewrite H.
Qed.

Lemma size_above_threshold w p :
  MIN_SIZE < size_of w p ↔ classify w p = Valid.
Proof.
  unfold size_of, classify, MIN_SIZE. destruct (files w !! p) as [c|].
  - destruct (Z.ltb_spec 1024 (Z.of_nat (length c))); split; (done || lia).
  - split; [lia|done].
Qed.

Lemma good_files_spec w p : p ∈ good_files w ↔ valid_parquet w p.
Proof.
  unfold good_files, parquet_files, valid_parquet.
  rewrite list_elem_of_filter, merge_sort_Permutation, list_elem_of_filter.
  rewrite size_above_threshold, Is_true_true. split.
  - tauto.
  - intros [Hm Hv]. split; [done|]. split; [done|].
    apply list_elem_of_fmap. unfold classify in Hv.
    destruct (files w !! p) as [c|] eqn:E; [|done].
    exists (p, c). split; [done|]. by apply elem_of_map_to_list.
Qed.



(** *** Union by name *)







(** The specification's example of union by name: columns {a,b} and
    {a,c} give columns a, b, c, with NULL for c in the rows of the first
    and for b in the rows of the second. *)
Example union_by_name_ab_ac :
  union_by_name
    [ {| columns := ["a"; "b"]; rows := [[VData "1"; VData "2"]] |};
      {| columns := ["a"; "c"]; rows := [[VData "3"; VData "4"]] |} ]
  = {| columns := ["a"; "b"; "c"];
       rows := [[VData "1"; VData "2"; VNull]; [VData "3"; VNull; VData "4"]] |}.
Proof. reflexivity. Qed.

(** With only a tiny parquet file in the directory the loader raises and
    changes nothing. *)
Example load_nothing_valid :
  load_parquets_into_duckdb env_404 "taxi_rides_ny.duckdb"
    (world_with [("data/fhv/fhv_tripdata_2019-01.parquet", blob 12)])
  = (Raise NO_VALID_PARQUET,
     world_with [("data/fhv/fhv_tripdata_2019-01.parquet", blob 12)]).
Proof. vm_compute. reflexivity. Qed.

(** Two valid files with columns {a,b} and {a,c}: the table is replaced
    by their union by name, in the order of the file names. *)
Example load_two_valid :
  let env := {| http_get := λ _, inl "offline"; open_wb_error := λ _, None;
                duckdb_copy := λ _ _ _, CopyError "unused" None;
                unlink_error := λ _, None; parquet_table := sample_table |} in
  let w := world_with [("data/fhv/fhv_tripdata_2019-02.parquet", blob 1025);
                       ("data/fhv/fhv_tripdata_2019-01.parquet",
                        replicate 1025 Byte.x01)] in
  ∃ w', load_parquets_into_duckdb env "taxi_rides_ny.duckdb" w = (Ok tt, w')
      ∧ tables w' !! ("taxi_rides_ny.duckdb", FHV_TABLE)
        = Some {| columns := ["a"; "c"; "b"];
                  rows := [[VData "3"; VData "4"; VNull];
                           [VData "1"; VNull; VData "2"]] |}.
Proof. eexists. split; vm_compute; reflexivity. Qed.

(** The loader takes the valid files of the directory in sorted order. *)
Example good_files_sorted_by_name :
  good_files
    (world_with [("data/fhv/fhv_tripdata_2019-02.parquet", blob 2000);
                 ("data/fhv/fhv_tripdata_2019-01.parquet", blob 2000);
                 ("data/fhv/fhv_tripdata_2019-03.parquet", blob 1024);
                 ("data/fhv/fhv_tripdata_2019-04.csv.gz", blob 2000);
                 ("data/yellow/yellow_tripdata_2019-01.parquet", blob 2000)])
  = ["data/fhv/fhv_tripdata_2019-01.parquet";
     "data/fhv/fhv_tripdata_2019-02.parquet"].
Proof. vm_compute. reflexivity. Qed.

(* ===================================================================== *)
(** * Further properties *)
(* ===================================================================== *)

(** ** The period generator *)

Lemma month_range_length_from fuel y m ey em :
  1 <= m <= 12 → 1 <= em <= 12 →
  (month_fuel y m ey ≤ fuel)%nat →
  ∃ l, month_range fuel y m ey em = Some l
     ∧ Z.of_nat (length l) = Z.max 0 (12 * (ey - y) + (em - m) + 1).
Proof.
  intros Hm Hem. revert y m Hm.
  induction fuel as [|fuel IH]; intros y m Hm Hfuel; simpl.
  - destruct (in_range y m ey em) eqn:E.
    + apply in_range_le in E. unfold period_le, month_fuel in *; simpl in *. lia.
    + apply in_range_false_gt in E. exists []. split; [done|].
      unfold period_lt in E; simpl in *. lia.
  - destruct (in_range y m ey em) eqn:E.
    + apply in_range_le in E. unfold advance; simpl.
      destruct (Z.eqb_spec (m + 1) 13) as [H13|H13]; simpl.
      * destruct (IH (y + 1) 1) as (l & -> & Hlen); [lia| |].
        { unfold month_fuel in *. lia. }
        exists ((y, m) :: l). split; [done|].
        unfold period_le in E; simpl in *. lia.
      * destruct (IH y (m + 1)) as (l & -> & Hlen); [lia| |].
        { unfold month_fuel in *. lia. }
        exists ((y, m) :: l). split; [done|].
        unfold period_le in E; simpl in *. lia.
    + apply in_range_false_gt in E. exists []. split; [done|].
      unfold period_lt in E; simpl in *. lia.
Qed.

(** X1: between two calendar periods, start not after end, the generator
    yields as many periods as there are months from start to end
    inclusive. *)
Theorem month_range_length (fuel : nat) (sy sm ey em : Z) :
  1 <= sm <= 12 → 1 <= em <= 12 →
  period_le (sy, sm) (ey, em) →
  (month_fuel sy sm ey ≤ fuel)%nat →
  ∃ l, month_range fuel sy sm ey em = Some l
     ∧ Z.of_nat (length l) = 12 * (ey - sy) + (em - sm) + 1.
Proof.
  intros Hm Hem Hle Hfuel.
  destruct (month_range_length_from fuel sy sm ey em Hm Hem Hfuel) as (l & Hl & Hlen).
  exists l. split; [done|]. unfold period_le in Hle; simpl in Hle.
  lia.
Qed.

Lemma month_range_length_witness :
  ∃ l, month_range 36 2019 1 2021 7 = Some l ∧ Z.of_nat (length l) = 31.
Proof.
  destruct (month_range_length 36 2019 1 2021 7) as (l & Hl & Hlen).
  - lia.
  - lia.
  - left; simpl; lia.
  - vm_compute; lia.
  - exists l. split; [exact Hl|exact Hlen].
Defined.

(** X2: a start month beyond 12 in a year before the end year never
    reaches the carry at 13: the generator yields without end, and
    neither it nor the batch over it returns, whatever the fuel. *)
Theorem month_range_diverges (env : Env) (fuel : nat) (sy sm ey em : Z) (w : World) :
  13 <= sm → sy < ey →
  month_range fuel sy sm ey em = None
  ∧ download_and_convert_fhv_files env fuel sy sm ey em w = None.
Proof.
  intros Hm Hy.
  assert (Hr : month_range fuel sy sm ey em = None).
  { revert sm Hm. induction fuel as [|fuel IH]; intros sm Hm; simpl.
    - replace (in_range sy sm ey em) with true; [done|].
      symmetry. apply in_range_le. left; simpl; lia.
    - replace (in_range sy sm ey em) with true
        by (symmetry; apply in_range_le; left; simpl; lia).
      unfold advance; simpl. destruct (Z.eqb_spec (sm + 1) 13); [lia|].
      simpl. by rewrite IH by lia. }
  split; [done|]. unfold download_and_convert_fhv_files. by rewrite Hr.
Qed.

Lemma month_range_diverges_witness :
  month_range 1000 2019 13 2020 1 = None.
Proof.
  apply (month_range_diverges env_404 1000 2019 13 2020 1 empty_world); lia.
Defined.

(** ** The Fetcher *)

Lemma download_file_streams (env : Env) (url dest : string) (w : World)
    (resp : Response) :
  http_get env url = inr resp →
  http_error_status (status_code resp) = false →
  open_wb_error env dest = None →
  ∃ w',
    download_file env url dest w
    = (match broken resp with Some e => Raise e | None => Ok tt end, w')
    ∧ files w' = <[dest := concat (body resp)]> (files w)
    ∧ trace w' = trace w ++ [EvDownload url dest; EvOpenWrite dest]
    ∧ tables w' = tables w ∧ schemas w' = schemas w.
Proof.
  intros Hget Hst Hopen.
  unfold download_file, bind, log, requests_get, raise_for_status, open_wb,
    stream_to, bind, raise, ret. simpl.
  rewrite Hget, Hst. simpl. rewrite Hopen, write_chunks_run.
  eexists. split; [by destruct (broken resp)|]. simpl.
  split; [|by rewrite <- app_assoc].
  apply map_eq. intros q. destruct (decide (dest = q)) as [->|Hne].
  - by rewrite lookup_alter_eq, !lookup_insert_eq.
  - by rewrite lookup_alter_ne, !lookup_insert_ne.
Qed.

(** X3: when the remote answers without an HTTP error status and the
    destination can be opened, [download_file] replaces whatever was at
    the destination by the chunks received, in order, and touches nothing
    else; it returns when the stream ended normally, and when the stream
    broke off it raises that error with the bytes received so far left at
    the destination. *)
Theorem download_file_writes_body (env : Env) (url dest : string) (w : World)
    (resp : Response) :
  http_get env url = inr resp →
  http_error_status (status_code resp) = false →
  open_wb_error env dest = None →
  ∃ w',
    download_file env url dest w
    = (match broken resp with Some e => Raise e | None => Ok tt end, w')
    ∧ files w' = <[dest := concat (body resp)]> (files w)
    ∧ trace w' = trace w ++ [EvDownload url dest; EvOpenWrite dest]
    ∧ tables w' = tables w ∧ schemas w' = schemas w.
Proof. apply download_file_streams. Qed.

Lemma download_file_writes_body_witness :
  ∃ w',
    download_file (env_converting (blob 2000)) "http://host/f" "f"
      (world_with [("f", blob 9)]) = (Ok tt, w')
    ∧ files w' !! "f" = Some (blob 3000 ++ blob 50).
Proof.
  destruct (download_file_writes_body (env_converting (blob 2000))
              "http://host/f" "f" (world_with [("f", blob 9)])
              {| status_code := 200; body := [blob 3000; []; blob 50];
                 broken := None |})
    as (w' & Hrun & Hf & _); [reflexivity..|].
  exists w'. split; [exact Hrun|]. rewrite Hf, lookup_insert_eq.
  vm_compute. reflexivity.
Defined.

(** X4: when [requests.get] itself raises, or the destination cannot be
    opened, [download_file] raises that error and no file has changed: the
    destination keeps the content it had. *)
Theorem download_file_fails_early (env : Env) (url dest e : string) (w : World) :
  http_get env url = inl e
  ∨ (∃ resp, http_get env url = inr resp
           ∧ http_error_status (status_code resp) = false
           ∧ open_wb_error env dest = Some e) →
  ∃ w', download_file env url dest w = (Raise e, w') ∧ files w' = files w.
Proof.
  intros [Hget|(resp & Hget & Hst & Hopen)];
    unfold download_file, bind, log, requests_get, raise_for_status, open_wb,
      raise, ret; simpl; rewrite Hget.
  - by eexists.
  - rewrite Hst. simpl. rewrite Hopen. by eexists.
Qed.

Lemma download_file_fails_early_witness :
  ∃ w',
    download_file
      {| http_get := λ _, inl "ConnectionError"; open_wb_error := λ _, None;
         duckdb_copy := λ _ _ _, CopyError "unused" None;
         unlink_error := λ _, None; parquet_table := no_table |}
      "http://host/f" "f" (world_with [("f", blob 9)])
    = (Raise "ConnectionError", w')
    ∧ files w' = files (world_with [("f", blob 9)]).
Proof.
  apply download_file_fails_early. left. reflexivity.
Defined.

(** ** File names *)

Lemma all_chars_app P s t :
  all_chars P (s +:+ t) = all_chars P s && all_chars P t.
Proof. induction s as [|c s IH]; simpl; [done|]. by rewrite IH, andb_assoc. Qed.

Lemma all_chars_weaken (P Q : ascii → bool) s :
  (∀ c, P c = true → Q c = true) → all_chars P s = true → all_chars Q s = true.
Proof.
  intros HPQ. induction s as [|c s IH]; simpl; [done|].
  rewrite !andb_true_iff. intros [Hc Hs]. auto.
Qed.

Lemma forallb_all_chars P s :
  forallb P (list_ascii_of_string s) = all_chars P s.
Proof. induction s as [|c s IH]; simpl; [done|]. by rewrite IH. Qed.

Lemma last_char_app s t : t ≠ EmptyString → last_char (s +:+ t) = last_char t.
Proof.
  intros Ht. induction s as [|c s IH]; simpl; [done|].
  destruct (s +:+ t) eqn:E; [|done].
  destruct s; simpl in E; [done|discriminate].
Qed.

Lemma string_app_nil_l s : EmptyString +:+ s = s.
Proof. done. Qed.

Lemma string_app_cons c s t : String c s +:+ t = String c (s +:+ t).
Proof. done. Qed.

Ltac str_simpl :=
  repeat (rewrite string_app_cons in * || rewrite string_app_nil_l in * ).

Lemma string_length_app s t :
  String.length (s +:+ t) = (String.length s + String.length t)%nat.
Proof. induction s as [|c s IH]; simpl; [done|]. by rewrite IH. Qed.

Lemma string_app_inv_tail s1 s2 t : s1 +:+ t = s2 +:+ t → s1 = s2.
Proof.
  revert s2. induction s1 as [|c s1 IH]; intros [|c2 s2] H; simpl in *.
  - done.
  - apply (f_equal String.length) in H. simpl in H.
    rewrite !string_length_app in H. simpl in H. lia.
  - apply (f_equal String.length) in H. simpl in H.
    rewrite !string_length_app in H. simpl in H. lia.
  - injection H as -> H. f_equal. by apply IH.
Qed.

Lemma pretty_N_char_digit x : is_digit (pretty_N_char x) = true.
Proof. unfold pretty_N_char. by repeat case_match. Qed.

Lemma pretty_N_go_digits x s :
  all_chars is_digit s = true → all_chars is_digit (pretty_N_go x s) = true.
Proof.
  revert s. induction (N.lt_wf_0 x) as [x _ IH]; intros s Hs.
  assert (x = 0 ∨ 0 < x)%N as [->|Hx] by lia.
  - by rewrite pretty_N_go_0.
  - rewrite pretty_N_go_step by done. apply IH.
    + by apply N.div_lt.
    + simpl. by rewrite pretty_N_char_digit.
Qed.

(** The first character of a positive number is a digit other than 0. *)
Lemma pretty_N_go_head x s :
  (0 < x)%N →
  ∃ c r, pretty_N_go x s = String c r ∧ is_digit c = true ∧ c ≠ "0"%char.
Proof.
  revert s. induction (N.lt_wf_0 x) as [x _ IH]; intros s Hx.
  rewrite pretty_N_go_step by done.
  assert (x < 10 ∨ 10 ≤ x)%N as [Hlt|Hge] by lia.
  - rewrite N.div_small, pretty_N_go_0, N.mod_small by done.
    eexists _, _. split; [done|]. split; [apply pretty_N_char_digit|].
    assert (x = 1 ∨ x = 2 ∨ x = 3 ∨ x = 4 ∨ x = 5 ∨ x = 6
            ∨ x = 7 ∨ x = 8 ∨ x = 9)%N as Hcases by lia.
    repeat (destruct Hcases as [->|Hcases]; [discriminate|]).
    subst. discriminate.
  - apply IH.
    + by apply N.div_lt.
    + apply N.div_str_pos. lia.
Qed.

Lemma pretty_N_digits (x : N) :
  all_chars is_digit (pretty x) = true ∧ pretty x ≠ EmptyString.
Proof.
  unfold pretty, pretty_N. case_decide as Hx; [done|].
  split; [by apply pretty_N_go_digits|].
  destruct (pretty_N_go_head x "") as (c & r & -> & _); [lia|done].
Qed.

(** A printed integer is an optional minus sign and then digits. *)
Lemma pretty_Z_shape (z : Z) :
  ∃ sign ds, pretty z = sign +:+ ds
           ∧ (sign = EmptyString ∨ sign = "-")
           ∧ all_chars is_digit ds = true ∧ ds ≠ EmptyString.
Proof.
  destruct z as [|p|p]; unfold pretty, pretty_Z.
  - by exists "", "0"; auto.
  - exists "", (pretty p). split; [done|]. split; [by left|].
    apply (pretty_N_digits (Npos p)).
  - exists "-", (pretty p). split; [done|]. split; [by right|].
    apply (pretty_N_digits (Npos p)).
Qed.

Lemma digits_then_dash ds1 ds2 r1 r2 :
  all_chars is_digit ds1 = true → all_chars is_digit ds2 = true →
  ds1 +:+ "-" +:+ r1 = ds2 +:+ "-" +:+ r2 → ds1 = ds2 ∧ r1 = r2.
Proof.
  revert ds2. induction ds1 as [|c ds1 IH]; intros [|c2 ds2] H1 H2 H;
    simpl in H1, H2; str_simpl.
  - by injection H as ->.
  - injection H as <- _. done.
  - injection H as -> _. done.
  - apply andb_true_iff in H1 as [_ H1]. apply andb_true_iff in H2 as [_ H2].
    injection H as -> H. destruct (IH ds2 H1 H2 H) as [-> ->]. done.
Qed.

Lemma pretty_Z_then_dash (y1 y2 : Z) r1 r2 :
  pretty y1 +:+ "-" +:+ r1 = pretty y2 +:+ "-" +:+ r2 → y1 = y2 ∧ r1 = r2.
Proof.
  destruct (pretty_Z_shape y1) as (s1 & d1 & E1 & Hs1 & Hd1 & Hn1).
  destruct (pretty_Z_shape y2) as (s2 & d2 & E2 & Hs2 & Hd2 & Hn2).
  intros H. rewrite E1, E2 in H.
  assert (s1 +:+ d1 = s2 +:+ d2 ∧ r1 = r2) as [Hy Hr].
  { destruct Hs1 as [-> | ->], Hs2 as [-> | ->]; str_simpl.
    - by apply digits_then_dash.
    - destruct d1 as [|c d1]; [done|]. simpl in Hd1. str_simpl.
      injection H as -> _. done.
    - destruct d2 as [|c d2]; [done|]. simpl in Hd2. str_simpl.
      injection H as <- _. done.
    - injection H as H. destruct (digits_then_dash d1 d2 r1 r2) as [-> ->]; done. }
  split; [|done]. apply (inj pretty). by rewrite E1, E2.
Qed.

Lemma fmt_02d_inj (m1 m2 : Z) : fmt_02d m1 = fmt_02d m2 → m1 = m2.
Proof.
  assert (Hmixed : ∀ a b : Z, 0 <= a < 10 → ¬ (0 <= b < 10) →
            "0" +:+ pretty a ≠ pretty b).
  { intros a b Ha Hb H. destruct b as [|p|p]; [lia| |].
    - unfold pretty at 2, pretty_Z, pretty, pretty_positive, pretty, pretty_N in H.
      case_decide; [done|].
      destruct (pretty_N_go_head (Npos p) "") as (c & r & E & _ & Hc); [lia|].
      rewrite E in H. simpl in H. injection H as <- _. done.
    - unfold pretty at 2, pretty_Z in H. simpl in H. discriminate. }
  unfold fmt_02d.
  destruct ((0 <=? m1) && (m1 <? 10)) eqn:E1, ((0 <=? m2) && (m2 <? 10)) eqn:E2;
    intros H.
  - simpl in H. injection H as H. by apply (inj pretty).
  - exfalso. apply (Hmixed m1 m2); [lia|lia|done].
  - exfalso. apply (Hmixed m2 m1); [lia|lia|done].
  - by apply (inj pretty).
Qed.

Lemma tripdata_stem_inj (p q : Period) : tripdata_stem p = tripdata_stem q → p = q.
Proof.
  destruct p as [y1 m1], q as [y2 m2]. unfold tripdata_stem; simpl.
  intros H. apply String.app_inj in H.
  apply pretty_Z_then_dash in H as [-> H]. by apply fmt_02d_inj in H as ->.
Qed.

Lemma csv_gz_filepath_inj (p q : Period) :
  csv_gz_filepath p = csv_gz_filepath q → p = q.
Proof.
  unfold csv_gz_filepath, joinpath, csv_gz_filename.
  intros H. do 2 apply String.app_inj in H.
  by apply string_app_inv_tail, tripdata_stem_inj in H.
Qed.

Lemma parquet_filepath_inj (p q : Period) :
  parquet_filepath p = parquet_filepath q → p = q.
Proof.
  unfold parquet_filepath, joinpath, parquet_filename.
  intros H. do 2 apply String.app_inj in H.
  by apply string_app_inv_tail, tripdata_stem_inj in H.
Qed.

Lemma csv_gz_ne_any_parquet (p q : Period) :
  csv_gz_filepath p ≠ parquet_filepath q.
Proof.
  unfold csv_gz_filepath, parquet_filepath, joinpath, csv_gz_filename,
    parquet_filename.
  intros H. do 2 apply String.app_inj in H.
  apply (f_equal last_char) in H. rewrite !last_char_app in H by done.
  discriminate.
Qed.

(** X5: the csv.gz path and the parquet path determine the period, and no
    csv.gz path of one period is the parquet path of another: the units
    of a batch work on pairwise distinct files. *)
Theorem unit_paths_distinct (p q : Period) :
  (csv_gz_filepath p = csv_gz_filepath q → p = q)
  ∧ (parquet_filepath p = parquet_filepath q → p = q)
  ∧ csv_gz_filepath p ≠ parquet_filepath q.
Proof.
  split; [apply csv_gz_filepath_inj|].
  split; [apply parquet_filepath_inj|apply csv_gz_ne_any_parquet].
Qed.

(** ** The glob of the loader *)

Lemma string_app_assoc a b c : (a +:+ b) +:+ c = a +:+ (b +:+ c).
Proof. induction a as [|x a IH]; str_simpl; [done|]. by rewrite IH. Qed.

Lemma prefix_app a b : String.prefix a (a +:+ b) = true.
Proof.
  induction a as [|x a IH]; str_simpl; simpl; [by destruct b|].
  by destruct (ascii_dec x x).
Qed.

Lemma substring_full s : substring 0 (String.length s) s = s.
Proof. induction s as [|x s IH]; simpl; [done|]. by rewrite IH. Qed.

Lemma substring_app a b n :
  substring (String.length a) n (a +:+ b) = substring 0 n b.
Proof. induction a as [|x a IH]; str_simpl; simpl; done. Qed.

Lemma substring_split n s :
  (n ≤ String.length s)%nat →
  s = substring 0 n s +:+ substring n (String.length s - n) s.
Proof.
  revert s. induction n as [|n IH]; intros s Hn.
  - rewrite Nat.sub_0_r, substring_full. by destruct s.
  - destruct s as [|x s]; simpl in *; [lia|].
    str_simpl. f_equal. apply IH. lia.
Qed.

Lemma endswith_spec s suffix :
  endswith s suffix = true ↔ ∃ a, s = a +:+ suffix.
Proof.
  unfold endswith. rewrite andb_true_iff, Nat.leb_le, String.eqb_eq. split.
  - intros [Hlen Hsub].
    exists (substring 0 (String.length s - String.length suffix) s).
    pose proof (substring_split (String.length s - String.length suffix) s)
      as Hsplit.
    replace (String.length s - (String.length s - String.length suffix))%nat
      with (String.length suffix) in Hsplit by lia.
    rewrite Hsub in Hsplit. apply Hsplit. lia.
  - intros [a ->]. rewrite string_length_app. split; [lia|].
    replace (String.length a + String.length suffix - String.length suffix)%nat
      with (String.length a) by lia.
    by rewrite substring_app, substring_full.
Qed.

Lemma child_name_join dir name :
  all_chars not_slash name = true →
  child_name dir (joinpath dir name) = Some name.
Proof.
  intros Hname. unfold child_name, joinpath.
  rewrite <- string_app_assoc. generalize (dir +:+ "/"). intros d.
  rewrite prefix_app, string_length_app.
  replace (String.length d + String.length name - String.length d)%nat
    with (String.length name) by lia.
  rewrite substring_app, substring_full.
  change (forallb _ (list_ascii_of_string name))
    with (forallb not_slash (list_ascii_of_string name)).
  by rewrite forallb_all_chars, Hname.
Qed.

Lemma digit_not_slash c : is_digit c = true → not_slash c = true.
Proof.
  unfold is_digit, not_slash. intros H.
  destruct (Ascii.eqb_spec c "/") as [->|]; [|done]. discriminate.
Qed.

Lemma pretty_Z_no_slash (z : Z) : all_chars not_slash (pretty z) = true.
Proof.
  destruct (pretty_Z_shape z) as (sign & ds & -> & Hsign & Hds & _).
  rewrite all_chars_app. apply andb_true_iff. split.
  - by destruct Hsign as [-> | ->].
  - eapply all_chars_weaken; [apply digit_not_slash|done].
Qed.

Lemma tripdata_stem_no_slash p : all_chars not_slash (tripdata_stem p) = true.
Proof.
  unfold tripdata_stem, fmt_02d. rewrite !all_chars_app, pretty_Z_no_slash.
  destruct ((0 <=? p.2) && (p.2 <? 10));
    rewrite ?all_chars_app, pretty_Z_no_slash; done.
Qed.

Lemma parquet_path_matches (p : Period) :
  matches_parquet fhv_dir (parquet_filepath p) = true.
Proof.
  unfold matches_parquet, parquet_filepath, parquet_filename.
  change data_dir with fhv_dir. rewrite child_name_join.
  - apply endswith_spec. by eexists.
  - by rewrite all_chars_app, tripdata_stem_no_slash.
Qed.

(** X6: the parquet path of every period is matched by the loader's
    [data/fhv/*.parquet], and no csv.gz path is: an artifact above the
    threshold is always among the files the loader takes, and a csv.gz
    left behind never is. *)
Theorem loader_sees_artifacts (w : World) (p : Period) :
  matches_parquet fhv_dir (parquet_filepath p) = true
  ∧ matches_parquet fhv_dir (csv_gz_filepath p) = false
  ∧ (classify w (parquet_filepath p) = Valid → parquet_filepath p ∈ good_files w)
  ∧ csv_gz_filepath p ∉ good_files w.
Proof.
  pose proof (parquet_path_matches p) as Hpq.
  assert (Hcsv : matches_parquet fhv_dir (csv_gz_filepath p) = false).
  { unfold matches_parquet, csv_gz_filepath, csv_gz_filename.
    change data_dir with fhv_dir. rewrite child_name_join.
    - apply not_true_is_false. intros [a Ha]%endswith_spec.
      apply (f_equal last_char) in Ha. rewrite !last_char_app in Ha by done.
      discriminate.
    - by rewrite all_chars_app, tripdata_stem_no_slash. }
  split; [done|]. split; [done|]. split.
  - intros Hv. by apply good_files_spec.
  - intros [Hm _]%good_files_spec. congruence.
Qed.

Global Instance path_le_antisymm : AntiSymm eq path_le.
Proof. intros a b. apply String.leb_antisym. Qed.



(** ** The batch as a whole *)

Lemma month_range_sorted fuel y m ey em l :
  month_range fuel y m ey em = Some l →
  Forall (period_le (y, m)) l ∧ StronglySorted period_lt l.
Proof.
  revert y m l. induction fuel as [|fuel IH]; intros y m l; simpl.
  - destruct (in_range y m ey em); [discriminate|]. intros [= <-].
    split; constructor.
  - destruct (in_range y m ey em); [|intros [= <-]; split; constructor].
    pose proof (advance_lt (y, m)) as Hlt.
    destruct (advance (y, m)) as [y' m'] eqn:Hadv. simpl.
    destruct (month_range fuel y' m' ey em) as [l'|] eqn:El; [|discriminate].
    intros [= <-]. destruct (IH _ _ _ El) as [Hall Hsorted].
    assert (Hgt : Forall (period_lt (y, m)) l').
    { eapply Forall_impl; [exact Hall|]. intros [a b2].
      unfold period_le, period_lt in *; simpl in *. lia. }
    split.
    + constructor; [unfold period_le; simpl; lia|].
      eapply Forall_impl; [exact Hgt|]. intros [a b2].
      unfold period_le, period_lt; simpl. lia.
    + by constructor.
Qed.

Lemma month_range_NoDup fuel y m ey em l :
  month_range fuel y m ey em = Some l → NoDup l.
Proof.
  intros [_ Hsorted]%month_range_sorted.
  induction Hsorted as [|p l Hs IH Hall]; constructor; [|done].
  intros Hin. eapply Forall_forall in Hall; [|done].
  unfold period_lt in Hall. lia.
Qed.

Lemma invocations_downloads evs : invocations evs = [] → downloads evs = [].
Proof.
  induction evs as [|e evs IH]; [done|]. unfold invocations in *. simpl.
  destruct e; simpl; try discriminate; done.
Qed.

Lemma downloads_app evs1 evs2 :
  downloads (evs1 ++ evs2) = downloads evs1 ++ downloads evs2.
Proof. unfold downloads. apply omap_app. Qed.

Section batch_summary.
Variable env : Env.

(** The log of [fetch_and_convert] holds one download, of the period's
    URL. *)
Lemma fetch_and_convert_downloads b p w :
  ∃ evs, trace (fetch_and_convert env b p w).2 = trace w ++ evs
       ∧ downloads evs = [fhv_url p].
Proof.
  unfold fetch_and_convert. unfold bind at 1, try_except at 1, bind at 1.
  destruct (download_file_post env (fhv_url p) (csv_gz_filepath p) w)
    as (r & w1 & Hd & (rest1 & Ht1 & Hi1) & _).
  rewrite Hd. destruct r as [[]|e]; unfold ret at 1.
  - unfold try_finally, try_except, bind.
    destruct (convert_post env (csv_gz_filepath p) (parquet_filepath p) w1)
      as (r2 & w2 & Hc & (rest2 & Ht2 & Hi2 & _) & _).
    rewrite Hc.
    destruct r2 as [[]|e2]; unfold ret;
      destruct (remove_if_exists_post env (csv_gz_filepath p) w2)
        as (w3 & -> & (evs & Ht3 & Hi3) & _); simpl;
      exists (EvDownload (fhv_url p) (csv_gz_filepath p)
                :: rest1 ++ EvConvert (csv_gz_filepath p) (parquet_filepath p)
                :: rest2 ++ evs);
      (split; [rewrite Ht3, Ht2, Ht1; by rewrite <- !app_assoc|]);
      change (downloads (?e :: ?l)) with (fhv_url p :: downloads l);
      rewrite downloads_app; simpl;
      change (downloads (EvConvert ?a ?c :: ?l)) with (downloads l);
      by rewrite downloads_app, !invocations_downloads.
  - unfold bind.
    destruct (remove_if_exists_post env (csv_gz_filepath p) w1)
      as (w3 & -> & (evs & Ht3 & Hi3) & _). simpl.
    exists (EvDownload (fhv_url p) (csv_gz_filepath p) :: rest1 ++ evs).
    split; [rewrite Ht3, Ht1; by rewrite <- !app_assoc|].
    change (downloads (?e :: ?l)) with (fhv_url p :: downloads l).
    by rewrite downloads_app, !invocations_downloads.
Qed.

(** What one unit does, in the terms the batch needs. *)
Lemma process_unit_summary b p w :
  ∃ (o : option string) w' evs,
    process_unit env b p w = (Ok (record_outcomes b [(p, o)]), w')
    ∧ trace w' = trace w ++ evs
    ∧ downloads evs
      = (if bool_decide (classify w (parquet_filepath p) = Valid) then []
         else [fhv_url p])
    ∧ tables w' = tables w ∧ schemas w' = schemas w
    ∧ (∀ q, q ≠ csv_gz_filepath p → q ≠ parquet_filepath p →
            files w' !! q = files w !! q)
    ∧ (o = None → is_Some (files w' !! parquet_filepath p))
    ∧ (is_Some o → unlink_error env (parquet_filepath p) = None →
       files w' !! parquet_filepath p = None).
Proof.
  destruct (decide (classify w (parquet_filepath p) = Valid)) as [Hv|Hv].
  - exists None, w, []. rewrite process_unit_valid by done.
    rewrite bool_decide_eq_true_2 by done.
    split; [unfold record_outcomes, add_success; simpl; by rewrite app_nil_r|].
    split; [by rewrite app_nil_r|]. repeat (split; [done|]).
    split; [|by intros [? [=]]].
    intros _. unfold classify in Hv.
    destruct (files w !! parquet_filepath p); [eauto|done].
  - rewrite process_unit_not_valid by done.
    rewrite (bool_decide_eq_false_2 (classify w (parquet_filepath p) = Valid))
      by done.
    set (w1 := if bool_decide (classify w (parquet_filepath p) = Broken)
               then (try_unlink env (parquet_filepath p) w).2 else w).
    assert (Hw1 : (∃ evs1, trace w1 = trace w ++ evs1 ∧ downloads evs1 = [])
              ∧ tables w1 = tables w ∧ schemas w1 = schemas w
              ∧ (∀ q, q ≠ parquet_filepath p → files w1 !! q = files w !! q)
              ∧ (unlink_error env (parquet_filepath p) = None →
                 files w1 !! parquet_filepath p = None)).
    { unfold w1. case_bool_decide as Hb.
      - destruct (try_unlink_post env (parquet_filepath p) w)
          as (w2 & -> & Ht & Htb & Hs & Hf & Hg). simpl.
        split; [by exists [EvUnlink (parquet_filepath p)]|].
        repeat (split; [done|]). intros Hu. by destruct Hg as [?|[? _]].
      - split; [exists []; by rewrite app_nil_r|]. repeat (split; [done|]).
        intros _. apply classify_absent.
        destruct (classify w (parquet_filepath p)); done. }
    destruct Hw1 as ((evs1 & Ht1 & Hd1) & Htb1 & Hs1 & Hf1 & Hg1).
    destruct (fetch_and_convert_downloads b p w1) as (evs2 & Ht2 & Hd2).
    destruct (fetch_and_convert_post env b p w1)
      as (b' & w' & rest & Hrun & _ & _ & Htb & Hs & Hf & _ & Hb).
    rewrite Hrun in *. simpl in Ht2.
    destruct Hb as [(-> & _ & src & out & _ & Hout)|(msg & -> & Hgone)].
    + exists None, w', (evs1 ++ evs2).
      split; [unfold record_outcomes, add_success; simpl; by rewrite app_nil_r|].
      split; [by rewrite Ht2, Ht1, app_assoc|].
      split; [by rewrite downloads_app, Hd1, Hd2|].
      split; [congruence|]. split; [congruence|].
      split; [intros q Hq1 Hq2; by rewrite Hf, Hf1|].
      split; [by rewrite Hout|]. by intros [? [=]].
    + exists (Some msg), w', (evs1 ++ evs2).
      split; [unfold record_outcomes, add_failure; simpl; by rewrite app_nil_r|].
      split; [by rewrite Ht2, Ht1, app_assoc|].
      split; [by rewrite downloads_app, Hd1, Hd2|].
      split; [congruence|]. split; [congruence|].
      split; [intros q Hq1 Hq2; by rewrite Hf, Hf1|].
      split; [done|]. intros _ Hu. apply Hgone; [done|]. by apply Hg1.
Qed.

End batch_summary.

Lemma filter_ext_in {A} (P Q : A → Prop) `{!∀ x, Decision (P x)}
    `{!∀ x, Decision (Q x)} (l : list A) :
  (∀ x, x ∈ l → P x ↔ Q x) → filter P l = filter Q l.
Proof.
  induction l as [|x l IH]; intros Hext; [done|].
  rewrite !filter_cons, IH by (intros y Hy; apply Hext; by right).
  destruct (decide (P x)) as [HP|HP], (decide (Q x)) as [HQ|HQ]; try done.
  - exfalso. apply HQ, Hext; [left|done].
  - exfalso. apply HP, Hext; [left|done].
Qed.

Lemma classify_same_file w w' p :
  files w' !! p = files w !! p → classify w' p = classify w p.
Proof. unfold classify. by intros ->. Qed.

Section batch_loop.
Variable env : Env.

(** What the loop does over periods without repetition. *)
Lemma for_each_summary ps b w :
  NoDup ps →
  ∃ (os : list Outcome) w' evs,
    for_each (process_unit env) ps b w = (Ok (record_outcomes b os), w')
    ∧ os.*1 = ps
    ∧ trace w' = trace w ++ evs
    ∧ downloads evs
      = fhv_url <$> filter (λ p, classify w (parquet_filepath p) ≠ Valid) ps
    ∧ tables w' = tables w ∧ schemas w' = schemas w
    ∧ (∀ q, (∀ p, p ∈ ps → q ≠ csv_gz_filepath p ∧ q ≠ parquet_filepath p) →
            files w' !! q = files w !! q)
    ∧ (∀ p, (p, None) ∈ os → is_Some (files w' !! parquet_filepath p))
    ∧ (∀ p msg, (p, Some msg) ∈ os →
         unlink_error env (parquet_filepath p) = None →
         files w' !! parquet_filepath p = None).
Proof.
  revert b w. induction ps as [|p ps IH]; intros b w Hnd.
  - exists [], w, []. simpl. unfold ret, record_outcomes; simpl.
    rewrite !app_nil_r. split; [by destruct b|]. repeat (split; [done|]).
    split; intros; by apply elem_of_nil in H.
  - apply NoDup_cons in Hnd as [Hp Hnd]. simpl. unfold bind.
    destruct (process_unit_summary env b p w)
      as (o & w1 & evs1 & -> & Ht1 & Hd1 & Htb1 & Hs1 & Hf1 & Hok1 & Hbad1).
    destruct (IH (record_outcomes b [(p, o)]) w1 Hnd)
      as (os & w' & evs2 & -> & Hos & Ht2 & Hd2 & Htb2 & Hs2 & Hf2 & Hok2 & Hbad2).
    assert (Hkeep : ∀ q, q ∈ ps →
              files w1 !! parquet_filepath q = files w !! parquet_filepath q).
    { intros q Hq. apply Hf1.
      - intros H. by apply (csv_gz_ne_any_parquet p q).
      - intros H%parquet_filepath_inj. by subst. }
    assert (Hlater : files w' !! parquet_filepath p = files w1 !! parquet_filepath p).
    { apply Hf2. intros q Hq. split.
      - intros H. by apply (csv_gz_ne_any_parquet q p).
      - intros H%parquet_filepath_inj. by subst. }
    exists ((p, o) :: os), w', (evs1 ++ evs2).
    split; [by rewrite record_outcomes_app|].
    split; [by rewrite <- Hos|].
    split; [by rewrite Ht2, Ht1, app_assoc|].
    split.
    { rewrite downloads_app, Hd1, Hd2, filter_cons.
      rewrite (filter_ext_in _ (λ q, classify w (parquet_filepath q) ≠ Valid) ps)
        by (intros q Hq; by rewrite (classify_same_file w w1) by by apply Hkeep).
      case_bool_decide as Hv; destruct (decide _) as [Hd|Hd]; try done;
        by destruct Hd. }
    split; [congruence|]. split; [congruence|].
    split.
    { intros q Hq. rewrite Hf2 by (intros p' Hp'; apply Hq; by right).
      apply Hf1; apply Hq; left. }
    split.
    + intros q [[= -> <-]|Hq]%elem_of_cons; [|by apply Hok2].
      rewrite Hlater. by apply Hok1.
    + intros q msg [[= -> <-]|Hq]%elem_of_cons Hu; [|by eapply Hbad2].
      rewrite Hlater. by apply Hbad1.
Qed.

End batch_loop.

Lemma batch_summary (env : Env) (fuel : nat) (sy sm ey em : Z)
    (periods : list Period) (w : World) :
  month_range fuel sy sm ey em = Some periods →
  ∃ (os : list Outcome) w' evs,
    download_and_convert_fhv_files env fuel sy sm ey em w
    = Some (Ok (omap outcome_success os, omap outcome_failure os), w')
    ∧ os.*1 = periods
    ∧ trace w' = trace w ++ evs
    ∧ downloads evs
      = fhv_url <$> filter (λ p, classify w (parquet_filepath p) ≠ Valid) periods
    ∧ tables w' = tables w ∧ schemas w' = schemas w
    ∧ (∀ q, (∀ p, p ∈ periods → q ≠ csv_gz_filepath p ∧ q ≠ parquet_filepath p) →
            files w' !! q = files w !! q)
    ∧ (∀ p, (p, None) ∈ os → is_Some (files w' !! parquet_filepath p))
    ∧ (∀ p msg, (p, Some msg) ∈ os →
         unlink_error env (parquet_filepath p) = None →
         files w' !! parquet_filepath p = None).
Proof.
  intros Hr. pose proof (month_range_NoDup _ _ _ _ _ _ Hr) as Hnd.
  unfold download_and_convert_fhv_files. rewrite Hr. simpl. unfold bind.
  destruct (for_each_summary env periods {| successes := []; failures := [] |} w Hnd)
    as (os & w' & evs & -> & Hrest).
  by exists os, w', evs.
Qed.

(** X8: whenever the generator returns, the batch returns having left
    the database tables and schemas alone, and every file that is not
    the csv.gz or the parquet file of an enumerated period as it was. *)
Theorem batch_touches_only_its_files (env : Env) (fuel : nat)
    (sy sm ey em : Z) (periods : list Period) (w : World) :
  month_range fuel sy sm ey em = Some periods →
  ∃ succs fails w',
    download_and_convert_fhv_files env fuel sy sm ey em w
    = Some (Ok (succs, fails), w')
    ∧ tables w' = tables w ∧ schemas w' = schemas w
    ∧ (∀ q, (∀ p, p ∈ periods → q ≠ csv_gz_filepath p ∧ q ≠ parquet_filepath p) →
            files w' !! q = files w !! q).
Proof.
  intros Hr.
  destruct (batch_summary env fuel sy sm ey em periods w Hr)
    as (os & w' & evs & Hrun & _ & _ & _ & Htb & Hs & Hf & _).
  by eexists _, _, w'.
Qed.

Lemma batch_touches_only_its_files_witness :
  ∃ succs fails w',
    download_and_convert_fhv_files (env_converting (blob 2000)) 2 2019 1 2019 2
      (world_with [(".gitignore", blob 4)])
    = Some (Ok (succs, fails), w')
    ∧ files w' !! ".gitignore" = Some (blob 4).
Proof.
  destruct (batch_touches_only_its_files (env_converting (blob 2000))
              2 2019 1 2019 2 [(2019, 1); (2019, 2)]
              (world_with [(".gitignore", blob 4)]))
    as (succs & fails & w' & Hrun & _ & _ & Hf); [reflexivity|].
  exists succs, fails, w'. split; [exact Hrun|].
  rewrite Hf; [reflexivity|].
  intros p Hp. split; intros H; vm_compute in H;
    repeat (apply elem_of_cons in Hp as [->|Hp]; [vm_compute in H; discriminate|]);
    by apply elem_of_nil in Hp.
Defined.

(** X9: whenever the generator returns, every path in the returned list
    of successes holds a file when the batch returns: a later unit never
    removes the artifact of an earlier one. *)
Theorem batch_successes_exist (env : Env) (fuel : nat)
    (sy sm ey em : Z) (periods : list Period) (w : World) :
  month_range fuel sy sm ey em = Some periods →
  ∃ succs fails w',
    download_and_convert_fhv_files env fuel sy sm ey em w
    = Some (Ok (succs, fails), w')
    ∧ ∀ path, path ∈ succs → is_Some (files w' !! path).
Proof.
  intros Hr.
  destruct (batch_summary env fuel sy sm ey em periods w Hr)
    as (os & w' & evs & Hrun & _ & _ & _ & _ & _ & _ & Hok & _).
  eexists _, _, w'. split; [exact Hrun|].
  intros path ([p [msg|]] & Hin & Hpath)%list_elem_of_omap;
    unfold outcome_success in Hpath; simpl in Hpath; [discriminate|].
  injection Hpath as <-. by apply Hok.
Qed.

Lemma batch_successes_exist_witness :
  ∃ succs fails w',
    download_and_convert_fhv_files (env_converting (blob 2000)) 2 2019 1 2019 2
      empty_world = Some (Ok (succs, fails), w')
    ∧ ∀ path, path ∈ succs → is_Some (files w' !! path).
Proof.
  apply (batch_successes_exist _ 2 2019 1 2019 2 [(2019, 1); (2019, 2)]).
  reflexivity.
Defined.

(** X10: whenever the generator returns, every entry of the returned
    failures names the csv.gz of an enumerated period, and that period has
    no parquet file when the batch returns, provided the guarded deletion
    of that file does not fail: the loader cannot pick up a partial
    artifact of a month reported as failed. *)
Theorem batch_failures_leave_no_artifact (env : Env) (fuel : nat)
    (sy sm ey em : Z) (periods : list Period) (w : World) :
  month_range fuel sy sm ey em = Some periods →
  ∃ succs fails w',
    download_and_convert_fhv_files env fuel sy sm ey em w
    = Some (Ok (succs, fails), w')
    ∧ ∀ name msg, (name, msg) ∈ fails →
        ∃ p, p ∈ periods ∧ name = csv_gz_filename p
           ∧ (unlink_error env (parquet_filepath p) = None →
              files w' !! parquet_filepath p = None).
Proof.
  intros Hr.
  destruct (batch_summary env fuel sy sm ey em periods w Hr)
    as (os & w' & evs & Hrun & Hos & _ & _ & _ & _ & _ & _ & Hbad).
  eexists _, _, w'. split; [exact Hrun|].
  intros name msg ([p [msg'|]] & Hin & Hfail)%list_elem_of_omap;
    unfold outcome_failure in Hfail; simpl in Hfail; [|discriminate].
  injection Hfail as <- <-. exists p.
  split; [rewrite <- Hos; apply list_elem_of_fmap; by exists (p, Some msg')|].
  split; [done|]. by apply (Hbad p msg').
Qed.

Lemma batch_failures_leave_no_artifact_witness :
  ∃ succs fails w',
    download_and_convert_fhv_files (env_failing (blob 2000) false) 1 2019 1 2019 1
      empty_world = Some (Ok (succs, fails), w')
    ∧ ∀ name msg, (name, msg) ∈ fails →
        ∃ p, p ∈ [(2019, 1)] ∧ name = csv_gz_filename p
           ∧ (unlink_error (env_failing (blob 2000) false) (parquet_filepath p) = None →
              files w' !! parquet_filepath p = None).
Proof.
  apply (batch_failures_leave_no_artifact _ 1 2019 1 2019 1 [(2019, 1)]).
  reflexivity.
Defined.

(** X11: whenever the generator returns, the batch calls [download_file]
    exactly once for each enumerated period whose parquet file was not
    above the threshold when the batch started, in the order of the
    periods and with that period's URL, and never for the others: there
    are no retries and no downloads for cached months. *)
Theorem batch_downloads_once (env : Env) (fuel : nat)
    (sy sm ey em : Z) (periods : list Period) (w : World) :
  month_range fuel sy sm ey em = Some periods →
  ∃ succs fails w' evs,
    download_and_convert_fhv_files env fuel sy sm ey em w
    = Some (Ok (succs, fails), w')
    ∧ trace w' = trace w ++ evs
    ∧ downloads evs
      = fhv_url <$> filter (λ p, classify w (parquet_filepath p) ≠ Valid) periods.
Proof.
  intros Hr.
  destruct (batch_summary env fuel sy sm ey em periods w Hr)
    as (os & w' & evs & Hrun & _ & Ht & Hd & _).
  by eexists _, _, w', evs.
Qed.

Lemma batch_downloads_once_witness :
  ∃ succs fails w' evs,
    download_and_convert_fhv_files env_404 3 2019 1 2019 3
      (world_with [(parquet_filepath (2019, 2), blob 2000)])
    = Some (Ok (succs, fails), w')
    ∧ trace w' = evs
    ∧ downloads evs = [fhv_url (2019, 1); fhv_url (2019, 3)].
Proof.
  destruct (batch_downloads_once env_404 3 2019 1 2019 3
              [(2019, 1); (2019, 2); (2019, 3)]
              (world_with [(parquet_filepath (2019, 2), blob 2000)]))
    as (succs & fails & w' & evs & Hrun & Ht & Hd); [reflexivity|].
  exists succs, fails, w', evs. split; [exact Hrun|]. split; [exact Ht|].
  rewrite Hd. vm_compute. reflexivity.
Defined.

(** ** A unit from download to artifact *)

(** X12: in a unit that is not skipped, when the download and the
    conversion both go through, the Converter is given exactly the bytes
    the download wrote; the unit is recorded as a success, the parquet
    file is the Converter's output and the csv.gz is gone (its deletion
    not failing). *)
Theorem unit_converts_what_it_downloaded (env : Env) (b : Batch) (p : Period)
    (w : World) (resp : Response) (out : bytes) :
  classify w (parquet_filepath p) ≠ Valid →
  http_get env (fhv_url p) = inr resp →
  http_error_status (status_code resp) = false →
  open_wb_error env (csv_gz_filepath p) = None →
  broken resp = None →
  duckdb_copy env (Some (concat (body resp))) (csv_gz_filepath p) (parquet_filepath p)
  = CopyDone out →
  unlink_error env (csv_gz_filepath p) = None →
  ∃ w',
    process_unit env b p w = (Ok (add_success b (parquet_filepath p)), w')
    ∧ files w' !! parquet_filepath p = Some out
    ∧ files w' !! csv_gz_filepath p = None.
Proof.
  intros Hv Hget Hst Hopen Hbr Hcopy Hu.
  pose proof (csv_gz_ne_parquet p) as Hne.
  rewrite process_unit_not_valid by done.
  match goal with |- context [fetch_and_convert env b p ?w0] => set (w1 := w0) end.
  unfold fetch_and_convert. unfold bind at 1, try_except at 1, bind at 1.
  destruct (download_file_streams env (fhv_url p) (csv_gz_filepath p) w1 resp
              Hget Hst Hopen) as (w2 & Hd & Hf2 & _).
  rewrite Hd, Hbr. unfold ret at 1. unfold try_finally, try_except, bind.
  destruct (convert_post env (csv_gz_filepath p) (parquet_filepath p) w2)
    as (r & w3 & Hc & _ & _ & _ & Hf3 & Hres).
  rewrite Hc.
  assert (Hsrc : files w2 !! csv_gz_filepath p = Some (concat (body resp)))
    by (by rewrite Hf2, lookup_insert_eq).
  rewrite Hsrc, Hcopy in Hres.
  destruct r as [[]|e]; [|by destruct Hres as [[part [=]] _]].
  destruct Hres as (out' & [= <-] & Hout). unfold ret.
  destruct (remove_if_exists_post env (csv_gz_filepath p) w3)
    as (w4 & -> & _ & _ & _ & Hf4 & Hgone).
  exists w4. split; [done|]. split.
  - by rewrite Hf4 by done.
  - by destruct Hgone as [?|[? _]].
Qed.

Lemma unit_converts_what_it_downloaded_witness :
  ∃ w',
    process_unit (env_converting (blob 2000))
      {| successes := []; failures := [] |} (2019, 1) empty_world
    = (Ok (add_success {| successes := []; failures := [] |}
             (parquet_filepath (2019, 1))), w')
    ∧ files w' !! parquet_filepath (2019, 1) = Some (blob 2000)
    ∧ files w' !! csv_gz_filepath (2019, 1) = None.
Proof.
  apply (unit_converts_what_it_downloaded (env_converting (blob 2000)) _
           (2019, 1) empty_world
           {| status_code := 200; body := [blob 3000; []; blob 50];
              broken := None |});
    try reflexivity.
  vm_compute. discriminate.
Defined.

(** ** [update_gitignore] *)






(** A file without the entry gets it after a line feed; one that has it
    is left as it is. *)
Example update_gitignore_appends :
  files (update_gitignore (world_with [(GITIGNORE, text "*.pyc")])).2 !! GITIGNORE
  = Some (text ("*.pyc" +:+ LF +:+ "# Data directory" +:+ LF +:+ "data/" +:+ LF))
  ∧ (update_gitignore (world_with [(GITIGNORE, text "/data/")])).2
    = world_with [(GITIGNORE, text "/data/")].
Proof. split; vm_compute; reflexivity. Qed.

(** ** The script as a whole *)









(** ** The summary *)



(** ** Failure messages *)



(** ** Loading again *)


